(** * The SQL equivalence evaluator: lexical, structural and semantic metrics

    A shallow embedding of [evaluator/lexical_evaluator.py],
    [evaluator/struct_evaluator.py], [evaluator/semantic_evaluator.py] and
    [query_extractor.py].

    Conventions of the embedding.
    - A Python [str] is a [string]; a character is a code point below 256
      (Latin-1), which is what Rocq's [ascii] holds.  [str.lower],
      [str.isspace], [\s], [\w] and [\b] follow CPython on that range.
    - The [re] module is embedded once, as a backtracking matcher over a
      small regular-expression syntax, and each pattern of the source is
      written in that syntax next to the source text of the pattern.
    - A Python [set] is a [gset]; a [dict] is a [gmap], or an association
      list in insertion order where the order of its items is used.
    - A Python [float] result is an exact rational ([Qc], the reduced
      fractions); a call that may raise returns a [Py.result], so that [/]
      on a zero divisor is [ZeroDivisionError]. *)

From Stdlib Require Import Ascii String NArith ZArith QArith Qcanon Qround.
From stdpp Require Import numbers gmap strings list fin_maps.

Local Open Scope string_scope.
Local Open Scope list_scope.

Set Warnings "-clear-no-such-hyp".

(** ** Characters *)

Module Char.

Definition code (c : ascii) : N := N_of_ascii c.

Definition between (lo hi : N) (c : ascii) : bool :=
  ((lo <=? code c) && (code c <=? hi))%N.

(** [str.isspace] and the [\s] class of [re] on code points below 256. *)
Definition is_space (c : ascii) : bool :=
  between 9 13 c || between 28 32 c || (code c =? 133)%N || (code c =? 160)%N.

Definition is_upper_ascii (c : ascii) : bool := between 65 90 c.
Definition is_lower_ascii (c : ascii) : bool := between 97 122 c.
Definition is_digit (c : ascii) : bool := between 48 57 c.

(** Upper-case letters of Latin-1: A-Z, and 0xC0-0xDE without 0xD7. *)
Definition is_upper (c : ascii) : bool :=
  is_upper_ascii c || (between 192 222 c && negb (code c =? 215)%N).

(** [str.lower] on one character. *)
Definition lower (c : ascii) : ascii :=
  if is_upper c then ascii_of_N (code c + 32) else c.

(** The [\w] class of [re] for [str] patterns: alphanumeric or [_]. *)
Definition is_word (c : ascii) : bool :=
  is_digit c || is_upper_ascii c || is_lower_ascii c || (code c =? 95)%N
  || (code c =? 170)%N || (code c =? 178)%N || (code c =? 179)%N
  || (code c =? 181)%N || (code c =? 185)%N || (code c =? 186)%N
  || between 188 190 c || between 192 214 c || between 216 246 c
  || between 248 255 c.

Definition eqb (a b : ascii) : bool := (code a =? code b)%N.

(** Three properties of a character that the normalizers establish for
    every character of their result: it is its own lower case; it is not
    [d]; if it is white space, it is the blank. *)
Definition lowered (c : ascii) : bool := eqb (lower c) c.

Definition isnt (d c : ascii) : bool := negb (eqb d c).

Definition blank_if_space (c : ascii) : bool := negb (is_space c) || eqb c " ".

End Char.

(** ** Strings *)

Module Str.

Fixpoint map (f : ascii -> ascii) (s : string) : string :=
  match s with
  | EmptyString => EmptyString
  | String c s' => String (f c) (map f s')
  end.

Fixpoint forallb (p : ascii -> bool) (s : string) : bool :=
  match s with
  | EmptyString => true
  | String c s' => p c && forallb p s'
  end.

(** [s.lower()] *)
Definition lower (s : string) : string := map Char.lower s.

(** The first [n] characters of [s]. *)
Fixpoint take (n : nat) (s : string) : string :=
  match n, s with
  | S n', String c s' => String c (take n' s')
  | _, _ => EmptyString
  end.

Fixpoint lstrip (s : string) : string :=
  match s with
  | String c s' => if Char.is_space c then lstrip s' else s
  | EmptyString => EmptyString
  end.

(** Drops the trailing white space: a character is kept when it is not
    white space or when something is kept after it. *)
Fixpoint rstrip (s : string) : string :=
  match s with
  | EmptyString => EmptyString
  | String c s' =>
      match rstrip s' with
      | EmptyString => if Char.is_space c then EmptyString else String c EmptyString
      | t => String c t
      end
  end.

(** [s.strip()] *)
Definition strip (s : string) : string := rstrip (lstrip s).

(** Python truthiness of a [str]. *)
Definition truthy (s : string) : bool :=
  match s with EmptyString => false | _ => true end.

(** Two of the substitutions of the normalizers, written without the
    matcher; the section on substitutions proves that [re.sub] computes
    them.  [remove c s] is [s] without its occurrences of [c]. *)
Fixpoint remove (c : ascii) (s : string) : string :=
  match s with
  | EmptyString => EmptyString
  | String d s' => if Char.eqb c d then remove c s' else String d (remove c s')
  end.

(** [collapse false s] is [s] with every run of white space replaced by
    one blank; [in_run] tells that the characters before belong to a run
    whose blank is already written. *)
Fixpoint collapse (in_run : bool) (s : string) : string :=
  match s with
  | EmptyString => EmptyString
  | String c s' =>
      if Char.is_space c
      then (if in_run then collapse true s' else String " " (collapse true s'))
      else String c (collapse false s')
  end.

End Str.

(** ** The [re] module *)

Module Re.

(** The syntax covers what the patterns of the evaluator use.  A
    repetition is always over a single character class, as it is in every
    pattern of the source. *)
Inductive regex : Type :=
| Eps                                   (* the empty pattern *)
| Chr (c : ascii)                       (* a literal character *)
| Cls (p : ascii -> bool)               (* a character class *)
| Seq (r1 r2 : regex)                   (* r1r2 *)
| Alt (r1 r2 : regex)                   (* r1|r2 *)
| Rep (greedy : bool) (lo : nat) (p : ascii -> bool)
                                        (* p* p+ (greedy), p*? p+? (lazy) *)
| Opt (r : regex)                       (* (?:r)? *)
| Grp (n : nat) (r : regex)             (* capturing group number n *)
| Bnd                                   (* \b *)
| Eos.                                  (* $ *)

(** A literal string, character by character. *)
Fixpoint Lit (s : string) : regex :=
  match s with
  | EmptyString => Eps
  | String c EmptyString => Chr c
  | String c s' => Seq (Chr c) (Lit s')
  end.

Definition Star (p : ascii -> bool) : regex := Rep true 0 p.
Definition Plus (p : ascii -> bool) : regex := Rep true 1 p.
Definition StarLazy (p : ascii -> bool) : regex := Rep false 0 p.
Definition PlusLazy (p : ascii -> bool) : regex := Rep false 1 p.

(** Captured groups, the latest binding of a number first. *)
Definition caps : Type := list (nat * string).

(** [m.group(n)] as [findall] reports it: the empty string for a group
    that did not take part in the match. *)
Fixpoint group (n : nat) (cs : caps) : string :=
  match cs with
  | [] => EmptyString
  | (i, s) :: cs' => if Nat.eqb i n then s else group n cs'
  end.

(** The answer of a successful match: the unread rest and the groups. *)
Definition answer : Type := (string * caps)%type.

(** A continuation receives the character before the position, the unread
    input and the groups so far. *)
Definition cont : Type := option ascii -> string -> caps -> option answer.

Definition is_word_opt (o : option ascii) : bool :=
  match o with Some c => Char.is_word c | None => false end.

Definition head (s : string) : option ascii :=
  match s with String c _ => Some c | EmptyString => None end.

(** [$] without MULTILINE: at the end, or before a final newline. *)
Definition at_eos (s : string) : bool :=
  match s with
  | EmptyString => true
  | String c EmptyString => (Char.code c =? 10)%N
  | _ => false
  end.

(** Greedy repetition: take a character when possible and fall back to
    stopping here when the rest fails. *)
Fixpoint rep_greedy (p : ascii -> bool) (lo : nat) (pv : option ascii)
    (s : string) (cs : caps) (k : cont) : option answer :=
  let stop := match lo with O => k pv s cs | S _ => None end in
  match s with
  | String c s' =>
      if p c then
        match rep_greedy p (Nat.pred lo) (Some c) s' cs k with
        | Some a => Some a
        | None => stop
        end
      else stop
  | EmptyString => stop
  end.

(** Lazy repetition: stop here when the rest succeeds, and take a
    character otherwise. *)
Fixpoint rep_lazy (p : ascii -> bool) (lo : nat) (pv : option ascii)
    (s : string) (cs : caps) (k : cont) : option answer :=
  let stop := match lo with O => k pv s cs | S _ => None end in
  match stop with
  | Some a => Some a
  | None =>
      match s with
      | String c s' =>
          if p c then rep_lazy p (Nat.pred lo) (Some c) s' cs k else None
      | EmptyString => None
      end
  end.

(** The backtracking matcher: alternatives are tried in the order of the
    pattern and the first success wins. *)
Fixpoint run (r : regex) (pv : option ascii) (s : string) (cs : caps)
    (k : cont) : option answer :=
  match r with
  | Eps => k pv s cs
  | Chr c =>
      match s with
      | String d s' => if Char.eqb c d then k (Some d) s' cs else None
      | EmptyString => None
      end
  | Cls p =>
      match s with
      | String d s' => if p d then k (Some d) s' cs else None
      | EmptyString => None
      end
  | Seq r1 r2 => run r1 pv s cs (fun pv' s' cs' => run r2 pv' s' cs' k)
  | Alt r1 r2 =>
      match run r1 pv s cs k with
      | Some a => Some a
      | None => run r2 pv s cs k
      end
  | Rep true lo p => rep_greedy p lo pv s cs k
  | Rep false lo p => rep_lazy p lo pv s cs k
  | Opt r1 =>
      match run r1 pv s cs k with
      | Some a => Some a
      | None => k pv s cs
      end
  | Grp n r1 =>
      run r1 pv s cs (fun pv' s' cs' =>
        k pv' s' ((n, Str.take (String.length s - String.length s') s) :: cs'))
  | Bnd =>
      if xorb (is_word_opt pv) (is_word_opt (head s)) then k pv s cs else None
  | Eos => if at_eos s then k pv s cs else None
  end.

(** The continuation at the end of the pattern: the match is complete. *)
Definition accept : cont := fun _ s' cs' => Some (s', cs').

(** A match of [r] that starts exactly here: the unread rest and the
    groups. *)
Definition match_here (r : regex) (pv : option ascii) (s : string)
    : option answer :=
  run r pv s [] accept.

(** One match: its text and its groups. *)
Definition found : Type := (string * caps)%type.

(** The non-overlapping matches from left to right ([re.finditer]).
    [skip] counts the characters still inside the previous match.  No
    pattern of the source matches the empty string; such a match would be
    reported and the scan would move on by one character. *)
Fixpoint scan (r : regex) (pv : option ascii) (s : string) (skip : nat)
    : list found :=
  match s with
  | EmptyString =>
      match skip with
      | O =>
          match match_here r pv EmptyString with
          | Some (_, cs) => [(EmptyString, cs)]
          | None => []
          end
      | S _ => []
      end
  | String c s' =>
      match skip with
      | S n => scan r (Some c) s' n
      | O =>
          match match_here r pv s with
          | Some (rest, cs) =>
              let len := String.length s - String.length rest in
              (Str.take len s, cs) :: scan r (Some c) s' (Nat.pred len)
          | None => scan r (Some c) s' 0
          end
      end
  end.

Definition finditer (r : regex) (s : string) : list found := scan r None s 0.

(** [re.search(r, s) is not None] *)
Definition search (r : regex) (s : string) : bool :=
  match finditer r s with [] => false | _ :: _ => true end.

(** [re.findall] for a pattern without groups, with one group and with
    two groups. *)
Definition findall0 (r : regex) (s : string) : list string :=
  fst <$> finditer r s.
Definition findall1 (r : regex) (s : string) : list string :=
  (fun m => group 1 (snd m)) <$> finditer r s.
Definition findall2 (r : regex) (s : string) : list (string * string) :=
  (fun m => (group 1 (snd m), group 2 (snd m))) <$> finditer r s.

(** [re.sub(r, repl, s)] for a replacement without group references:
    the text outside the matches is copied and every match becomes
    [repl]. *)
Fixpoint sub_from (r : regex) (repl : string) (pv : option ascii)
    (s : string) (skip : nat) : string :=
  match s with
  | EmptyString =>
      match skip with
      | O =>
          match match_here r pv EmptyString with
          | Some _ => repl
          | None => EmptyString
          end
      | S _ => EmptyString
      end
  | String c s' =>
      match skip with
      | S n => sub_from r repl (Some c) s' n
      | O =>
          match match_here r pv s with
          | Some (rest, _) =>
              match String.length s - String.length rest with
              | O => repl +:+ String c (sub_from r repl (Some c) s' 0)
              | S n => repl +:+ sub_from r repl (Some c) s' n
              end
          | None => String c (sub_from r repl (Some c) s' 0)
          end
      end
  end.

Definition sub (r : regex) (repl : string) (s : string) : string :=
  sub_from r repl None s 0.

(** Two measures of a pattern, used to bound what a match consumes: every
    character that [r] can consume satisfies [p]; and a match of [r]
    consumes at least [min_len r] characters. *)
Fixpoint within (p : ascii -> bool) (r : regex) : Prop :=
  match r with
  | Chr c => p c = true
  | Cls q => forall d, q d = true -> p d = true
  | Rep _ _ q => forall d, q d = true -> p d = true
  | Seq r1 r2 => within p r1 /\ within p r2
  | Alt r1 r2 => within p r1 /\ within p r2
  | Opt r1 => within p r1
  | Grp _ r1 => within p r1
  | Eps | Bnd | Eos => True
  end.

Fixpoint min_len (r : regex) : nat :=
  match r with
  | Chr _ | Cls _ => 1
  | Rep _ lo _ => lo
  | Seq r1 r2 => min_len r1 + min_len r2
  | Alt r1 r2 => Nat.min (min_len r1) (min_len r2)
  | Grp _ r1 => min_len r1
  | Opt _ | Eps | Bnd | Eos => 0
  end.

End Re.

(** ** Character classes and patterns of the evaluator *)

Module Pat.
Import Re.

(** [[a-z0-9_]] *)
Definition lower_word (c : ascii) : bool :=
  Char.is_lower_ascii c || Char.is_digit c || (Char.code c =? 95)%N.

(** [[a-zA-Z_]] *)
Definition ident_start (c : ascii) : bool :=
  Char.is_lower_ascii c || Char.is_upper_ascii c || (Char.code c =? 95)%N.

(** [[a-zA-Z0-9_]] *)
Definition ident_char (c : ascii) : bool :=
  Char.is_lower_ascii c || Char.is_upper_ascii c || Char.is_digit c
  || (Char.code c =? 95)%N.

(** [.] without DOTALL: everything but the newline. *)
Definition dot (c : ascii) : bool := negb (Char.code c =? 10)%N.

(** [[^;]] *)
Definition not_semicolon (c : ascii) : bool := negb (Char.code c =? 59)%N.

(** A sequence of patterns. *)
Fixpoint Cat (l : list regex) : regex :=
  match l with
  | [] => Eps
  | [r] => r
  | r :: l' => Seq r (Cat l')
  end.

(** IDENT, that is [[a-zA-Z_][a-zA-Z0-9_]*] *)
Definition ident : regex := Seq (Cls ident_start) (Star ident_char).

(** [`] *)
Definition backtick : regex := Chr "`".

(** [\s+] *)
Definition spaces : regex := Plus Char.is_space.

(** [ as ] *)
Definition as_word : regex := Lit " as ".

(** [([a-z0-9_]+)\s*\.] *)
Definition qualifier : regex :=
  Cat [Grp 1 (Plus lower_word); Star Char.is_space; Chr "."].

(** [;] *)
Definition semicolon : regex := Chr ";".

(** [\b[a-zA-Z_][a-zA-Z0-9_]*\b] *)
Definition token : regex := Cat [Bnd; Cls ident_start; Star ident_char; Bnd].

(** [(?:from|join)\s+(IDENT)(?:\s+as\s+(IDENT))?] *)
Definition table_ref : regex :=
  Cat [Alt (Lit "from") (Lit "join"); spaces; Grp 1 ident;
       Opt (Cat [spaces; Lit "as"; spaces; Grp 2 ident])].

(** [join\s+[a-zA-Z_][a-zA-Z0-9_]*.*?on\s+([^;]+?)(?:\s+join|\s+where|$)] *)
Definition join_block : regex :=
  Cat [Lit "join"; spaces; ident; StarLazy dot; Lit "on"; spaces;
       Grp 1 (PlusLazy not_semicolon);
       Alt (Seq spaces (Lit "join")) (Alt (Seq spaces (Lit "where")) Eos)].

(** [(IDENT)\.IDENT\s*=\s*(IDENT)\.IDENT] *)
Definition join_pair : regex :=
  Cat [Grp 1 ident; Chr "."; ident; Star Char.is_space; Chr "=";
       Star Char.is_space; Grp 2 ident; Chr "."; ident].

End Pat.

(** ** Python containers that keep insertion order *)

Module Dict.

(** A [dict] with [str] keys and values, in insertion order. *)
Definition t : Type := list (string * string).

(** [d[k] = v]: an existing key keeps its place and takes the new value,
    a new key goes to the end. *)
Fixpoint set (k v : string) (d : t) : t :=
  match d with
  | [] => [(k, v)]
  | (k', v') :: d' =>
      if String.eqb k' k then (k, v) :: d' else (k', v') :: set k v d'
  end.

(** [d.get(k, default)] *)
Fixpoint get (k default : string) (d : t) : string :=
  match d with
  | [] => default
  | (k', v') :: d' => if String.eqb k' k then v' else get k default d'
  end.

(** [d.values()] *)
Definition values (d : t) : list string := snd <$> d.

End Dict.

(** ** Python numbers and exceptions *)

Module Py.

Inductive exn : Type :=
| ZeroDivisionError
| ValueError
| IndexError.

(** The outcome of a call: a value, or a raised exception. *)
Inductive result (A : Type) : Type :=
| Ok (a : A)
| Raise (e : exn).
Arguments Ok {A} a.
Arguments Raise {A} e.

#[global] Instance result_bind : MBind result := fun A B f r =>
  match r with
  | Ok a => f a
  | Raise e => Raise e
  end.

#[global] Instance result_ret : MRet result := fun A a => Ok a.

Definition of_nat (n : nat) : Qc := Qc_of_Z (Z.of_nat n).

(** [a / b] for two numbers: a zero divisor raises. *)
Definition truediv (a b : Qc) : result Qc :=
  if decide (b = 0%Qc) then Raise ZeroDivisionError else Ok (a / b)%Qc.

(** The integer nearest to [q], a tie going to the even neighbour. *)
Definition round_half_even (q : Q) : Z :=
  let f := Qfloor q in
  match Qcompare (q - inject_Z f) (1 # 2) with
  | Lt => f
  | Gt => (f + 1)%Z
  | Eq => if Z.even f then f else (f + 1)%Z
  end.

(** [round(q, 4)].  CPython rounds the binary float; the embedding rounds
    the exact quotient, which is the same value unless the quotient lies
    exactly between two neighbours and is not a binary fraction. *)
Definition round4 (q : Qc) : Qc :=
  (Qc_of_Z (round_half_even (this q * 10000)) / Qc_of_Z 10000)%Qc.

End Py.

(** ** The records of a corpus and of a report *)

Module Corpus.

(** An entry of the question dataset: [item["question_id"]] and
    [item["SQL"]]. *)
Record question : Type := Question {
  question_id : Z;
  SQL : string
}.

(** An entry of the generation output: [item["question_id"]] and
    [item["SQL_generated"]]. *)
Record generation : Type := Generation {
  gen_question_id : Z;
  SQL_generated : string
}.

(** [{item["question_id"]: item["SQL"] for item in dataset}]: a later
    entry with the same id replaces an earlier one. *)
Definition golden_map (dataset : list question) : gmap Z string :=
  foldl (fun m item => <[question_id item := SQL item]> m) ∅ dataset.

(** What a run leaves behind: the report file when it was written, and
    what the call returned or raised.  The progress lines that are
    printed are not part of the outcome. *)
Record outcome (R : Type) : Type := Outcome {
  written : option (list R);
  returned : Py.result (list R)
}.
Arguments Outcome {R} written returned.
Arguments written {R} o.
Arguments returned {R} o.

(** [sum(...)] over the scores of the records. *)
Definition sum (scores : list Qc) : Qc := foldl Qcplus 0%Qc scores.

(** A generated entry joins a golden entry when the golden map has a
    golden SQL for its id and that SQL is not the empty string: such an
    entry is not skipped by the loop of an evaluator. *)
Definition joined (golden_map : gmap Z string) (item : generation) : bool :=
  match golden_map !! gen_question_id item with
  | Some gold_sql => Str.truthy gold_sql
  | None => false
  end.

End Corpus.

(** ** The lexical metrics: [evaluator/lexical_evaluator.py] *)

Module Lexical.

(** [normalize_sql] *)
Definition normalize_sql (sql : string) : string :=
  let sql := Str.lower sql in
  let sql := Re.sub Pat.backtick "" sql in
  let sql := Re.sub Pat.spaces " " sql in
  let sql := Re.sub Pat.as_word " " sql in
  let sql := Re.sub Pat.qualifier "" sql in
  let sql := Re.sub Pat.semicolon "" sql in
  let sql := Str.strip sql in
  sql.

Definition reserved : gset string :=
  list_to_set
    ["select"; "from"; "where"; "and"; "or"; "join"; "on"; "as"; "sum";
     "count"; "avg"; "min"; "max"; "group"; "by"; "order"; "limit";
     "inner"; "left"; "right"; "outer"; "cast"; "case"; "when"; "then";
     "else"; "end"; "distinct"; "having"; "like"; "in"; "between";
     "union"; "all"].

(** [extract_attributes] *)
Definition extract_attributes (sql : string) : list string :=
  let tokens := Re.findall0 Pat.token (Str.lower sql) in
  filter (fun t => t ∉ reserved) tokens.

(** [Levenshtein.distance] of the python-Levenshtein package, which is
    not part of the repository: the least number of insertions, deletions
    and substitutions of one character that turn [a] into [b]. *)
Fixpoint levenshtein_distance (a : string) : string -> nat :=
  fix against (b : string) : nat :=
    match a, b with
    | EmptyString, _ => String.length b
    | _, EmptyString => String.length a
    | String x a', String y b' =>
        Nat.min (S (levenshtein_distance a' b))
          (Nat.min (S (against b'))
             ((if Char.eqb x y then 0 else 1) + levenshtein_distance a' b'))
    end.

(** [levenshtein_similarity] *)
Definition levenshtein_similarity (a b : string) : Py.result Qc :=
  if negb (Str.truthy a) || negb (Str.truthy b) then Py.Ok 0%Qc
  else
    let dist := levenshtein_distance a b in
    q ← Py.truediv (Py.of_nat dist)
          (Py.of_nat (Nat.max (String.length a) (String.length b)));
    Py.Ok (1 - q)%Qc.

(** [lexical_accuracy] *)
Definition lexical_accuracy (golden_sql generated_sql : string)
    : Py.result Qc :=
  let attrs_gold : gset string := list_to_set (extract_attributes golden_sql) in
  let attrs_gen : gset string := list_to_set (extract_attributes generated_sql) in
  if decide (attrs_gold = ∅) then Py.Ok 0%Qc
  else Py.truediv (Py.of_nat (size (attrs_gold ∩ attrs_gen)))
                  (Py.of_nat (size attrs_gold)).

(** One record of the lexical report. *)
Record record : Type := Record_ {
  r_question_id : Z;
  r_levenshtein_similarity : Qc;
  r_cosine_similarity : Qc;
  r_lexical_accuracy : Qc;
  r_lexical_score : Qc
}.

Section Evaluate.

(** [cosine_similarity_text] is computed by scikit-learn, which is not
    part of the repository; it may raise (an empty vocabulary). *)
Variable cosine_similarity_text : string -> string -> Py.result Qc.

Variables alpha beta gamma : Qc.

(** The body of the [for] loop for one joined pair. *)
Definition evaluate_pair (qid : Z) (gold_sql gen_sql : string)
    : Py.result record :=
  let gen_sql_norm := normalize_sql gen_sql in
  let gold_sql_norm := normalize_sql gold_sql in
  lev_sim ← levenshtein_similarity gold_sql_norm gen_sql_norm;
  cos_sim ← cosine_similarity_text gold_sql_norm gen_sql_norm;
  lex_acc ← lexical_accuracy gold_sql_norm gen_sql_norm;
  let lex_score := (alpha * lev_sim + beta * cos_sim + gamma * lex_acc)%Qc in
  Py.Ok (Record_ qid (Py.round4 lev_sim) (Py.round4 cos_sim)
                 (Py.round4 lex_acc) (Py.round4 lex_score)).

(** The [for] loop over the generated entries; an entry without a
    golden SQL, or with an empty one, is skipped. *)
Fixpoint collect (golden_map : gmap Z string)
    (generated : list Corpus.generation) (results : list record)
    : Py.result (list record) :=
  match generated with
  | [] => Py.Ok results
  | item :: generated' =>
      let qid := Corpus.gen_question_id item in
      let gen_sql := Corpus.SQL_generated item in
      match golden_map !! qid with
      | None => collect golden_map generated' results
      | Some gold_sql =>
          if negb (Str.truthy gold_sql) then
            collect golden_map generated' results
          else
            r ← evaluate_pair qid gold_sql gen_sql;
            collect golden_map generated' (results ++ [r])
      end
  end.

(** [evaluate_lexical_metrics], on the two loaded JSON lists. *)
Definition evaluate_lexical_metrics (dataset : list Corpus.question)
    (generated : list Corpus.generation) : Corpus.outcome record :=
  let golden_map := Corpus.golden_map dataset in
  match collect golden_map generated [] with
  | Py.Raise e => Corpus.Outcome None (Py.Raise e)
  | Py.Ok results =>
      match Py.truediv (Corpus.sum (r_lexical_score <$> results))
                       (Py.of_nat (length results)) with
      | Py.Raise e => Corpus.Outcome None (Py.Raise e)
      | Py.Ok avg_score => Corpus.Outcome (Some results) (Py.Ok results)
      end
  end.

End Evaluate.

End Lexical.

(** ** The part of [networkx.Graph] that [build_graph] uses *)

Module Graph.

(** The adjacency of an undirected graph: every node with its
    neighbours, nodes and neighbours both in insertion order, as the
    dictionaries of networkx keep them. *)
Definition t : Type := list (string * list string).

Definition empty : t := [].

Definition has_node (n : string) (G : t) : bool :=
  existsb (fun e => String.eqb (fst e) n) G.

(** [G.add_node(n)] *)
Definition add_node (n : string) (G : t) : t :=
  if has_node n G then G else G ++ [(n, [])].

(** [G._adj[u][v] = {}]: [v] becomes a neighbour of [u]. *)
Fixpoint link (u v : string) (G : t) : t :=
  match G with
  | [] => []
  | (n, nbrs) :: G' =>
      if String.eqb n u
      then (n, if existsb (String.eqb v) nbrs then nbrs else nbrs ++ [v]) :: G'
      else (n, nbrs) :: link u v G'
  end.

(** [G.add_edge(u, v)] *)
Definition add_edge (u v : string) (G : t) : t :=
  link v u (link u v (add_node v (add_node u G))).

(** [G.edges()]: the nodes are visited in insertion order, and an edge is
    reported once, from the endpoint visited first, as the pair
    [(endpoint, neighbour)]. *)
Fixpoint edges_from (seen : list string) (G : t) : list (string * string) :=
  match G with
  | [] => []
  | (n, nbrs) :: G' =>
      ((fun nbr => (n, nbr)) <$> filter (fun nbr => nbr ∉ seen) nbrs)
      ++ edges_from (n :: seen) G'
  end.

Definition edges (G : t) : list (string * string) := edges_from [] G.

(** [G.nodes()] *)
Definition nodes (G : t) : list string := fst <$> G.

(** A graph is simple when no node is its own neighbour and every
    neighbour is a node. *)
Definition simple (G : t) : Prop :=
  forall n nbrs v, (n, nbrs) ∈ G -> v ∈ nbrs -> v <> n /\ v ∈ nodes G.

End Graph.

(** ** The structural metrics: [evaluator/struct_evaluator.py] *)

Module Structural.

(** [normalize_sql]: as the lexical one, without qualifier stripping. *)
Definition normalize_sql (sql : string) : string :=
  let sql := Str.lower sql in
  let sql := Re.sub Pat.backtick "" sql in
  let sql := Re.sub Pat.spaces " " sql in
  let sql := Re.sub Pat.as_word " " sql in
  let sql := Re.sub Pat.semicolon "" sql in
  let sql := Str.strip sql in
  sql.

(** [extract_tables] *)
Definition extract_tables (sql : string) : Dict.t :=
  let sql := Str.lower sql in
  let tables := Re.findall2 Pat.table_ref sql in
  foldl (fun table_map t =>
           let '(table_name, alias) := t in
           Dict.set (if Str.truthy alias then alias else table_name)
                    table_name table_map)
        [] tables.

(** [extract_joins] *)
Definition extract_joins (sql : string) : list (string * string) :=
  let sql := Str.lower sql in
  let join_blocks := Re.findall1 Pat.join_block sql in
  foldl (fun joins jb => joins ++ Re.findall2 Pat.join_pair jb) [] join_blocks.

(** [build_graph] *)
Definition build_graph (sql : string) : Graph.t :=
  let table_map := extract_tables sql in
  let G := foldl (fun G real_table => Graph.add_node real_table G)
                 Graph.empty (Dict.values table_map) in
  let joins := extract_joins sql in
  foldl (fun G j =>
           let '(a, b) := j in
           let real_a := Dict.get a a table_map in
           let real_b := Dict.get b b table_map in
           if String.eqb real_a real_b then G
           else Graph.add_edge real_a real_b G)
        G joins.

(** A set of edges as [set(G.edges())] holds them: ordered pairs. *)
Definition edge_set : Type := gset (string * string).

(** Truth value of a [set]. *)
Definition set_truthy (E : edge_set) : bool := bool_decide (E ≠ ∅).

(** [E1 or E2] *)
Definition set_or (E1 E2 : edge_set) : edge_set :=
  if set_truthy E1 then E1 else E2.

(** The three [return] statements of [graph_similarity]. *)
Inductive gs_return : Type :=
| ReturnBothEmpty   (* return 1.0 *)
| ReturnNeither     (* return 0.0 *)
| ReturnJaccard.    (* return round(intersection / union, 4) *)

(** The body of [graph_similarity] after the two edge sets are built:
    the [return] that is reached and what it returns. *)
Definition graph_similarity_edges (E1 E2 : edge_set)
    : gs_return * Py.result Qc :=
  if negb (set_truthy E1) && negb (set_truthy E2) then
    (ReturnBothEmpty, Py.Ok 1%Qc)
  else if negb (set_truthy (set_or E1 E2)) then
    (ReturnNeither, Py.Ok 0%Qc)
  else
    let intersection := size (E1 ∩ E2) in
    let union := size (E1 ∪ E2) in
    (ReturnJaccard,
     q ← Py.truediv (Py.of_nat intersection) (Py.of_nat union);
     Py.Ok (Py.round4 q)).

Definition edges_of (sql : string) : edge_set :=
  list_to_set (Graph.edges (build_graph sql)).

(** [graph_similarity] *)
Definition graph_similarity (sql1 sql2 : string) : Py.result Qc :=
  snd (graph_similarity_edges (edges_of sql1) (edges_of sql2)).

(** The notions of the specification of [graph_similarity]: an edge as an
    unordered pair of nodes, the edges of a graph as a set of such pairs,
    and the Jaccard index of two sets. *)
Definition unordered (e : string * string) : gset string := {[e.1; e.2]}.

Definition undirected (E : edge_set) : gset (gset string) :=
  set_map unordered E.

Definition jaccard `{Countable A} (X Y : gset A) : Qc :=
  (Py.of_nat (size (X ∩ Y)) / Py.of_nat (size (X ∪ Y)))%Qc.

(** Two edge sets are oriented alike when no edge is held as [(u, v)] by
    the first and as [(v, u)] by the second. *)
Definition oriented_alike (E1 E2 : edge_set) : Prop :=
  ∀ u v, (u, v) ∈ E1 → (v, u) ∈ E2 → u = v.

(** The Python objects that meet in the test of [join_correctness]: a
    [str], or a tuple of two [str]. *)
Inductive pyobj : Type :=
| PStr (s : string)
| PPair (a b : string).

(** [x == y] *)
Definition py_eqb (x y : pyobj) : bool :=
  match x, y with
  | PStr s, PStr s' => String.eqb s s'
  | PPair a b, PPair a' b' => String.eqb a a' && String.eqb b b'
  | _, _ => false
  end.

(** [x in j] for a tuple [j] of two [str]: [x] equals an item of [j]. *)
Definition tuple_contains (j : string * string) (x : pyobj) : bool :=
  py_eqb (PStr (fst j)) x || py_eqb (PStr (snd j)) x.

Definition as_obj (j : string * string) : pyobj := PPair (fst j) (snd j).

(** [any(j2 in j or j in j2 for j2 in joins2)] *)
Definition join_matched (joins2 : list (string * string))
    (j : string * string) : bool :=
  existsb (fun j2 => tuple_contains j (as_obj j2) || tuple_contains j2 (as_obj j))
          joins2.

(** [join_correctness] *)
Definition join_correctness (sql1 sql2 : string) : Py.result Qc :=
  let joins1 := extract_joins sql1 in
  let joins2 := extract_joins sql2 in
  match joins1 with
  | [] => Py.Ok (match joins2 with [] => 1%Qc | _ => 0%Qc end)
  | _ =>
      let matches := length (filter (fun j => join_matched joins2 j = true) joins1) in
      q ← Py.truediv (Py.of_nat matches) (Py.of_nat (length joins1));
      Py.Ok (Py.round4 q)
  end.

(** One record of the structural report. *)
Record record : Type := Record_ {
  r_question_id : Z;
  r_tree_similarity : Qc;
  r_graph_similarity : Qc;
  r_join_correctness : Qc;
  r_structural_score : Qc
}.

Section Evaluate.

(** [tree_matching_similarity] is computed by sqlparse and difflib,
    which are not part of the repository; it may raise (nothing
    parsed). *)
Variable tree_matching_similarity : string -> string -> Py.result Qc.

Variables alpha beta gamma : Qc.

(** The body of the [for] loop for one joined pair. *)
Definition evaluate_pair (qid : Z) (gold_sql gen_sql : string)
    : Py.result record :=
  let gen_sql_norm := normalize_sql gen_sql in
  let gold_sql_norm := normalize_sql gold_sql in
  tree_sim ← tree_matching_similarity gold_sql_norm gen_sql_norm;
  graph_sim ← graph_similarity gold_sql_norm gen_sql_norm;
  join_acc ← join_correctness gold_sql_norm gen_sql_norm;
  let struct_score :=
    Py.round4 (alpha * tree_sim + beta * graph_sim + gamma * join_acc)%Qc in
  Py.Ok (Record_ qid tree_sim graph_sim join_acc struct_score).

(** The [for] loop over the generated entries; an entry without a
    golden SQL, or with an empty one, is skipped. *)
Fixpoint collect (golden_map : gmap Z string)
    (generated : list Corpus.generation) (results : list record)
    : Py.result (list record) :=
  match generated with
  | [] => Py.Ok results
  | item :: generated' =>
      let qid := Corpus.gen_question_id item in
      let gen_sql := Corpus.SQL_generated item in
      match golden_map !! qid with
      | None => collect golden_map generated' results
      | Some gold_sql =>
          if negb (Str.truthy gold_sql) then
            collect golden_map generated' results
          else
            r ← evaluate_pair qid gold_sql gen_sql;
            collect golden_map generated' (results ++ [r])
      end
  end.

(** [evaluate_structural_metrics], on the two loaded JSON lists. *)
Definition evaluate_structural_metrics (dataset : list Corpus.question)
    (generated : list Corpus.generation) : Corpus.outcome record :=
  let golden_map := Corpus.golden_map dataset in
  match collect golden_map generated [] with
  | Py.Raise e => Corpus.Outcome None (Py.Raise e)
  | Py.Ok results =>
      match Py.truediv (Corpus.sum (r_structural_score <$> results))
                       (Py.of_nat (length results)) with
      | Py.Raise e => Corpus.Outcome None (Py.Raise e)
      | Py.Ok avg_score => Corpus.Outcome (Some results) (Py.Ok results)
      end
  end.

End Evaluate.

End Structural.

(** ** The semantic (execution) metrics *)

Module Semantic.

(** A value of a result row. *)
Inductive cell : Type :=
| CInt (z : Z)
| CStr (s : string)
| CNull.

#[global] Instance cell_eq_dec : EqDecision cell.
Proof. solve_decision. Defined.

#[global] Instance cell_countable : Countable cell.
Proof.
  refine (inj_countable'
    (fun c => match c with
              | CInt z => inl z
              | CStr s => inr (inl s)
              | CNull => inr (inr ())
              end)
    (fun x => match x with
              | inl z => CInt z
              | inr (inl s) => CStr s
              | inr (inr _) => CNull
              end) _).
  intros []; reflexivity.
Defined.

(** A row is a tuple of cells. *)
Definition row : Type := list cell.

(** What [execute_query] returns: the list of rows, or [None] when the
    driver raised. *)
Definition exec_result : Type := option (list row).

(** [x is None or not x] for an execution result. *)
Definition none_or_empty (r : exec_result) : bool :=
  match r with
  | None => true
  | Some [] => true
  | Some (_ :: _) => false
  end.

(** [execution_accuracy] of [semantic_evaluator.py]. *)
Definition execution_accuracy (result_gold result_gen : exec_result) : Z :=
  match result_gold, result_gen with
  | None, _ | _, None => 0
  | Some gold, Some gen => if decide (gold = gen) then 1 else 0
  end.

(** [partial_execution_accuracy] of [semantic_evaluator.py]. *)
Definition partial_execution_accuracy (result_gold result_gen : exec_result)
    : Py.result Qc :=
  if none_or_empty result_gold then
    Py.Ok (if none_or_empty result_gen then 1%Qc else 0%Qc)
  else
    match result_gold, result_gen with
    | _, None => Py.Ok 0%Qc
    | None, _ => Py.Ok 0%Qc (* excluded by the first test *)
    | Some gold, Some gen =>
        let set_gold : gset row := list_to_set gold in
        let set_gen : gset row := list_to_set gen in
        let inter := size (set_gold ∩ set_gen) in
        Py.truediv (Py.of_nat inter) (Py.of_nat (size set_gold))
    end.

(** [execution_result_distance] *)
Definition execution_result_distance (result_gold result_gen : exec_result)
    : Py.result Qc :=
  match result_gold, result_gen with
  | None, _ | _, None => Py.Ok 1%Qc
  | Some gold, Some gen =>
      let set_gold : gset row := list_to_set gold in
      let set_gen : gset row := list_to_set gen in
      if bool_decide (set_gold = ∅) && bool_decide (set_gen = ∅) then
        Py.Ok 0%Qc
      else
        let inter := size (set_gold ∩ set_gen) in
        let union := size (set_gold ∪ set_gen) in
        jaccard ← (if (0 <? union)%nat
                   then Py.truediv (Py.of_nat inter) (Py.of_nat union)
                   else Py.Ok 0%Qc);
        Py.Ok (1 - jaccard)%Qc
  end.

(** An entry of the golden-query dataset: [item["question_id"]] and
    [item["SQL_golden"]]. *)
Record golden : Type := Golden {
  g_question_id : Z;
  SQL_golden : string
}.

(** [{item["question_id"]: item["SQL_golden"] for item in dataset}] *)
Definition golden_map (dataset : list golden) : gmap Z string :=
  foldl (fun m item => <[g_question_id item := SQL_golden item]> m) ∅ dataset.

(** One record of the semantic report:
    [{"question_id": qid, "result": {"execution_accuracy": exe_acc}}]. *)
Record record : Type := Record_ {
  r_question_id : Z;
  r_execution_accuracy : Z
}.

Section Evaluate.

(** [execute_query] runs a statement through the MySQL driver, which is
    not part of the repository: from a state of the database it gives the
    state after the statement and the rows, or [None] when the driver
    raised. *)
Variable DB : Type.
Variable execute_query : DB -> string -> DB * exec_result.

(** The body of the [for] loop for one joined pair: the golden query is
    executed first, then the generated one; the three metrics are computed
    and the execution accuracy is recorded. *)
Definition evaluate_pair (db : DB) (qid : Z) (sql_golden sql_gen : string)
    : DB * Py.result record :=
  let '(db, gold_result) := execute_query db sql_golden in
  let '(db, gen_result) := execute_query db sql_gen in
  let exe_acc := execution_accuracy gold_result gen_result in
  (db,
   pexec ← partial_execution_accuracy gold_result gen_result;
   erd ← execution_result_distance gold_result gen_result;
   Py.Ok (Record_ qid exe_acc)).

(** The [for] loop over the generated entries; an entry without a golden
    SQL, or with an empty one, is skipped. *)
Fixpoint collect (golden_map : gmap Z string)
    (generated : list Corpus.generation) (db : DB) (results : list record)
    : DB * Py.result (list record) :=
  match generated with
  | [] => (db, Py.Ok results)
  | item :: generated' =>
      let qid := Corpus.gen_question_id item in
      let sql_gen := Corpus.SQL_generated item in
      match golden_map !! qid with
      | None => collect golden_map generated' db results
      | Some sql_golden =>
          if negb (Str.truthy sql_golden) then
            collect golden_map generated' db results
          else
            match evaluate_pair db qid sql_golden sql_gen with
            | (db, Py.Ok r) => collect golden_map generated' db (results ++ [r])
            | (db, Py.Raise e) => (db, Py.Raise e)
            end
      end
  end.

(** [evaluate_semantic], on the two loaded JSON lists: the state of the
    database after the run, and the outcome. *)
Definition evaluate_semantic (dataset : list golden)
    (generated : list Corpus.generation) (db : DB)
    : DB * Corpus.outcome record :=
  match collect (golden_map dataset) generated db [] with
  | (db, Py.Ok results) => (db, Corpus.Outcome (Some results) (Py.Ok results))
  | (db, Py.Raise e) => (db, Corpus.Outcome None (Py.Raise e))
  end.

End Evaluate.

End Semantic.

(** ** The filter of the golden queries: [query_extractor.py] *)

Module QueryExtractor.

(** [extract_matching_golden_queries], on the two loaded JSON lists: the
    list that is written to the output file.  A generated entry whose id is
    a key of the golden map gives one entry, with the golden SQL of that
    id; the others give a warning only. *)
Definition extract_matching_golden_queries (dataset : list Semantic.golden)
    (generated : list Corpus.generation) : list Semantic.golden :=
  let golden_map := Semantic.golden_map dataset in
  foldl (fun results item =>
           let qid := Corpus.gen_question_id item in
           match golden_map !! qid with
           | Some sql => results ++ [Semantic.Golden qid sql]
           | None => results
           end)
        [] generated.

End QueryExtractor.

(** * Properties *)

(** ** Tactics *)

(** A fact about every character is checked on its eight bits. *)
Ltac by_bits c :=
  destruct c as [[] [] [] [] [] [] [] []]; try reflexivity; try discriminate.

(** Evaluates both sides of an equation between results; two equal
    rationals may still differ in the proofs that they are reduced. *)
Ltac evaluate :=
  vm_compute;
  first [ reflexivity | f_equal; apply Qc_is_canon; reflexivity ].

(** ** Numbers *)

Section Numbers.

Lemma of_nat_0 : Py.of_nat 0 = 0%Qc.
Proof. apply Z2Qc_inj_0. Qed.

Lemma of_nat_eq_0 (n : nat) : Py.of_nat n = 0%Qc ↔ n = 0.
Proof.
  unfold Py.of_nat. rewrite <- Z2Qc_inj_0, Z2Qc_inj_iff. lia.
Qed.

Lemma of_nat_nonneg (n : nat) : (0 ≤ Py.of_nat n)%Qc.
Proof.
  unfold Py.of_nat. rewrite <- Z2Qc_inj_0, <- Z2Qc_inj_le. lia.
Qed.

Lemma of_nat_le (n m : nat) : (n ≤ m)%nat → (Py.of_nat n ≤ Py.of_nat m)%Qc.
Proof. intros. unfold Py.of_nat. rewrite <- Z2Qc_inj_le. lia. Qed.

Lemma of_nat_pos (n : nat) : n ≠ 0 → (0 < Py.of_nat n)%Qc.
Proof.
  intros. unfold Py.of_nat. rewrite <- Z2Qc_inj_0, <- Z2Qc_inj_lt. lia.
Qed.

(** A quotient with a divisor that is not zero does not raise. *)
Lemma truediv_ok (a b : Qc) :
  b ≠ 0%Qc → Py.truediv a b = Py.Ok (a / b)%Qc.
Proof. intros Hb. unfold Py.truediv. by rewrite decide_False. Qed.

Lemma truediv_zero (a : Qc) : Py.truediv a 0%Qc = Py.Raise Py.ZeroDivisionError.
Proof. unfold Py.truediv. by rewrite decide_True. Qed.

Lemma truediv_nat_ok (a b : nat) :
  b ≠ 0 → Py.truediv (Py.of_nat a) (Py.of_nat b)
           = Py.Ok (Py.of_nat a / Py.of_nat b)%Qc.
Proof. intros. apply truediv_ok. by rewrite of_nat_eq_0. Qed.

Lemma Qcdiv_same (x : Qc) : x ≠ 0%Qc → (x / x)%Qc = 1%Qc.
Proof. intros. unfold Qcdiv. by apply Qcmult_inv_r. Qed.

Lemma Qcdiv_0_l (x : Qc) : (0 / x)%Qc = 0%Qc.
Proof. unfold Qcdiv. apply Qcmult_0_l. Qed.

(** A quotient of two sizes, the smaller over the larger, lies in [0,1]. *)
Lemma ratio_unit (a b : nat) :
  (a ≤ b)%nat → b ≠ 0 → (0 ≤ Py.of_nat a / Py.of_nat b ≤ 1)%Qc.
Proof.
  intros Hab Hb.
  pose proof (Qcinv_pos _ (of_nat_pos b Hb)) as Hinv.
  split.
  - unfold Qcdiv. apply Qcmult_nonneg_nonneg; [apply of_nat_nonneg|].
    by apply Qclt_le_weak.
  - rewrite <- (Qcdiv_same (Py.of_nat b)) by (by rewrite of_nat_eq_0).
    unfold Qcdiv. apply Qcmult_le_mono_nonneg_r; [by apply Qclt_le_weak|].
    by apply of_nat_le.
Qed.

End Numbers.

(** ** The semantic metrics *)

Section SemanticProperties.
Import Semantic.

(** C1, as stated, fails: the two results of the specification's example
    hold the same rows in another order, and [execution_accuracy]
    answers 0; so it does for a result against itself with one row
    repeated. *)
Lemma execution_accuracy_is_order_sensitive :
  list_to_set [[CInt 1; CStr "x"]; [CInt 2; CStr "y"]]
    =@{gset row} list_to_set [[CInt 2; CStr "y"]; [CInt 1; CStr "x"]]
  ∧ execution_accuracy (Some [[CInt 1; CStr "x"]; [CInt 2; CStr "y"]])
                       (Some [[CInt 2; CStr "y"]; [CInt 1; CStr "x"]]) = 0%Z
  ∧ list_to_set [[CInt 1]] =@{gset row} list_to_set [[CInt 1]; [CInt 1]]
  ∧ execution_accuracy (Some [[CInt 1]]) (Some [[CInt 1]; [CInt 1]]) = 0%Z.
Proof.
  split_and!.
  - apply set_eq. intros r. rewrite !elem_of_list_to_set.
    rewrite !elem_of_cons. naive_solver.
  - reflexivity.
  - apply set_eq. intros r. rewrite !elem_of_list_to_set.
    rewrite !elem_of_cons. naive_solver.
  - reflexivity.
Qed.

(** C1, amended: [execution_accuracy] answers 1 exactly when both
    executions succeeded and returned the same list of rows (same rows,
    same order, same repetitions), and 0 in every other case, a failed
    execution on either side included; the two results of the
    specification's example, which differ in the order of their rows, give
    0. *)
Theorem execution_accuracy_exact_match (gold gen : exec_result) :
  (execution_accuracy gold gen = 1%Z
     ↔ ∃ rows, gold = Some rows ∧ gen = Some rows)
  ∧ (execution_accuracy gold gen = 0%Z
     ↔ ¬ ∃ rows, gold = Some rows ∧ gen = Some rows)
  ∧ execution_accuracy None gen = 0%Z
  ∧ execution_accuracy gold None = 0%Z
  ∧ execution_accuracy (Some [[CInt 1; CStr "x"]; [CInt 2; CStr "y"]])
                       (Some [[CInt 2; CStr "y"]; [CInt 1; CStr "x"]]) = 0%Z.
Proof.
  split_and!.
  - destruct gold as [g|], gen as [h|]; simpl; try (split; [done | naive_solver]).
    case_decide; split; try done; naive_solver.
  - destruct gold as [g|], gen as [h|]; simpl; try (split; [naive_solver | done]).
    case_decide; split; try done; naive_solver.
  - reflexivity.
  - by destruct gold.
  - reflexivity.
Qed.

(** C5, as stated, fails where its two special cases meet: the golden
    query succeeded with no row and the generated one failed; the result
    is 1.0, not 0.0. *)
Lemma partial_execution_accuracy_empty_gold_failed_gen :
  partial_execution_accuracy (Some []) None = Py.Ok 1%Qc
  ∧ Py.Ok 1%Qc ≠ Py.Ok 0%Qc.
Proof. split; [reflexivity | discriminate]. Qed.

(** C5, amended: when gold failed or is empty the result is 1.0 if gen
    failed or is empty too and 0.0 otherwise; when gold succeeded with at
    least one row the result is 0.0 if gen failed, and otherwise the
    number of distinct rows common to both over the number of distinct
    rows of gold; the example of the specification gives 1/3. *)
Theorem partial_execution_accuracy_spec (gold gen : exec_result) :
  (none_or_empty gold = true →
     partial_execution_accuracy gold gen
     = Py.Ok (if none_or_empty gen then 1%Qc else 0%Qc))
  ∧ (none_or_empty gold = false →
     gen = None → partial_execution_accuracy gold gen = Py.Ok 0%Qc)
  ∧ (∀ g h, gold = Some g → gen = Some h → g ≠ [] →
     partial_execution_accuracy gold gen
     = Py.Ok (Py.of_nat (size (list_to_set g ∩ list_to_set h : gset row))
              / Py.of_nat (size (list_to_set g : gset row)))%Qc)
  ∧ partial_execution_accuracy
      (Some [[CInt 1]; [CInt 2]; [CInt 3]]) (Some [[CInt 1]; [CInt 4]])
    = Py.Ok (Q2Qc (1 # 3)).
Proof.
  split_and!.
  - intros Hg. unfold partial_execution_accuracy. by rewrite Hg.
  - intros Hg ->. unfold partial_execution_accuracy. rewrite Hg.
    by destruct gold.
  - intros g h -> -> Hne. unfold partial_execution_accuracy.
    destruct g as [|r g]; [done|]. simpl none_or_empty. cbv iota.
    apply truediv_nat_ok. rewrite size_non_empty_iff.
    intros Hempty. apply (not_elem_of_empty (C:=gset row) r).
    rewrite <- Hempty. set_solver.
  - evaluate.
Qed.

(** [execution_accuracy_exact_match] read from right to left on one result
    against itself. *)
Lemma execution_accuracy_exact_match_witness :
  execution_accuracy (Some [[CInt 1; CStr "x"]]) (Some [[CInt 1; CStr "x"]])
  = 1%Z.
Proof.
  destruct (execution_accuracy_exact_match
              (Some [[CInt 1; CStr "x"]]) (Some [[CInt 1; CStr "x"]]))
    as ([_ H] & _).
  apply H. exists [[CInt 1; CStr "x"]]. split; reflexivity.
Defined.

(** The cases of [partial_execution_accuracy_spec] on results that meet
    their hypotheses. *)
Lemma partial_execution_accuracy_spec_witness :
  partial_execution_accuracy None (Some []) = Py.Ok 1%Qc
  ∧ partial_execution_accuracy (Some [[CInt 1]; [CInt 2]]) None = Py.Ok 0%Qc
  ∧ partial_execution_accuracy (Some [[CInt 1]; [CInt 2]]) (Some [[CInt 2]])
    = Py.Ok (Py.of_nat (size (list_to_set [[CInt 1]; [CInt 2]]
                              ∩ list_to_set [[CInt 2]] : gset row))
             / Py.of_nat (size (list_to_set [[CInt 1]; [CInt 2]] : gset row)))%Qc.
Proof.
  split_and!.
  - destruct (partial_execution_accuracy_spec None (Some [])) as (H & _).
    apply H. reflexivity.
  - destruct (partial_execution_accuracy_spec (Some [[CInt 1]; [CInt 2]]) None)
      as (_ & H & _).
    apply H; reflexivity.
  - destruct (partial_execution_accuracy_spec
                (Some [[CInt 1]; [CInt 2]]) (Some [[CInt 2]]))
      as (_ & _ & H & _).
    apply H; [reflexivity | reflexivity | discriminate].
Defined.

End SemanticProperties.

(** ** Finite sets *)

Section Sets.
Context `{Countable K}.

Lemma gset_size_non_empty (X : gset K) : X ≠ ∅ → size X ≠ 0.
Proof.
  intros HX. apply size_non_empty_iff. intros HE. apply HX.
  by apply leibniz_equiv.
Qed.

End Sets.

(** ** The lexical metrics *)

Section LexicalProperties.
Import Lexical.

Lemma char_eqb_refl (c : ascii) : Char.eqb c c = true.
Proof. unfold Char.eqb. apply N.eqb_refl. Qed.

Lemma char_eqb_eq (c d : ascii) : Char.eqb c d = true ↔ c = d.
Proof.
  unfold Char.eqb, Char.code. rewrite N.eqb_eq. split; [|by intros ->].
  intros H. by rewrite <- (ascii_N_embedding c), <- (ascii_N_embedding d), H.
Qed.

(** No edit is needed to turn a string into itself. *)
Lemma levenshtein_distance_same (a : string) : levenshtein_distance a a = 0.
Proof.
  induction a as [|x a IH]; [done|].
  simpl. rewrite char_eqb_refl, IH. simpl. lia.
Qed.

Lemma truthy_false (s : string) : Str.truthy s = false ↔ s = "".
Proof. by destruct s. Qed.

Lemma length_non_empty (s : string) : s ≠ "" → String.length s ≠ 0.
Proof. by destruct s. Qed.

(** C7, as stated, fails for the empty string against itself: two
    identical strings, and the similarity is 0.0. *)
Lemma levenshtein_similarity_empty_pair :
  levenshtein_similarity "" "" = Py.Ok 0%Qc ∧ Py.Ok 0%Qc ≠ Py.Ok 1%Qc.
Proof. split; [reflexivity | discriminate]. Qed.

(** C7, amended: the similarity is 0.0 whenever either string is empty;
    for two strings that are not empty it is
    1 - editDistance(a,b) / max(len(a), len(b)); for every string that is
    not empty the similarity to itself is 1.0. *)
Theorem levenshtein_similarity_spec (a b : string) :
  (a = "" ∨ b = "" → levenshtein_similarity a b = Py.Ok 0%Qc)
  ∧ (a ≠ "" → b ≠ "" →
     levenshtein_similarity a b
     = Py.Ok (1 - Py.of_nat (levenshtein_distance a b)
                  / Py.of_nat (Nat.max (String.length a) (String.length b)))%Qc)
  ∧ (a ≠ "" → levenshtein_similarity a a = Py.Ok 1%Qc).
Proof.
  assert (Hgen : ∀ a b, a ≠ "" → b ≠ "" →
     levenshtein_similarity a b
     = Py.Ok (1 - Py.of_nat (levenshtein_distance a b)
                  / Py.of_nat (Nat.max (String.length a) (String.length b)))%Qc).
  { clear. intros a b Ha Hb. unfold levenshtein_similarity.
    destruct a as [|x a]; [done|]. destruct b as [|y b]; [done|].
    cbn [Str.truthy negb orb].
    rewrite truediv_nat_ok; [done|]. simpl String.length. lia. }
  split_and!.
  - intros [-> | ->]; unfold levenshtein_similarity; [done|].
    by destruct a.
  - apply Hgen.
  - intros Ha. rewrite Hgen by done.
    rewrite levenshtein_distance_same, of_nat_0, Qcdiv_0_l.
    f_equal.
Qed.

(** C6, as stated, fails when the golden query has no attribute: every
    generated attribute set is then a superset of the golden one, and the
    accuracy is 0.0. *)
Lemma lexical_accuracy_empty_gold :
  (list_to_set (extract_attributes "select") : gset string)
    ⊆ list_to_set (extract_attributes "select a")
  ∧ lexical_accuracy "select" "select a" = Py.Ok 0%Qc
  ∧ Py.Ok 0%Qc ≠ Py.Ok 1%Qc.
Proof.
  split_and!; [| reflexivity | discriminate].
  vm_compute extract_attributes. set_solver.
Qed.

(** C6, amended: with A the attribute set of the golden query and B that
    of the generated one, the accuracy is 0.0 when A is empty and
    |A ∩ B| / |A| otherwise; it is 1.0 whenever A is not empty and B is a
    superset of A, and 0.0 whenever A and B are disjoint. *)
Theorem lexical_accuracy_spec (golden_sql generated_sql : string) :
  let A : gset string := list_to_set (extract_attributes golden_sql) in
  let B : gset string := list_to_set (extract_attributes generated_sql) in
  (A = ∅ → lexical_accuracy golden_sql generated_sql = Py.Ok 0%Qc)
  ∧ (A ≠ ∅ →
     lexical_accuracy golden_sql generated_sql
     = Py.Ok (Py.of_nat (size (A ∩ B)) / Py.of_nat (size A))%Qc)
  ∧ (A ≠ ∅ → A ⊆ B →
     lexical_accuracy golden_sql generated_sql = Py.Ok 1%Qc)
  ∧ (A ## B → lexical_accuracy golden_sql generated_sql = Py.Ok 0%Qc).
Proof.
  intros A B.
  assert (Hgen : A ≠ ∅ →
     lexical_accuracy golden_sql generated_sql
     = Py.Ok (Py.of_nat (size (A ∩ B)) / Py.of_nat (size A))%Qc).
  { intros HA. unfold lexical_accuracy. fold A B.
    rewrite decide_False by done.
    apply truediv_nat_ok. by apply gset_size_non_empty. }
  split_and!.
  - intros HA. unfold lexical_accuracy. fold A. by rewrite decide_True.
  - done.
  - intros HA Hsub. rewrite Hgen by done.
    rewrite (subseteq_intersection_1_L A B) by done.
    rewrite Qcdiv_same; [done|].
    rewrite of_nat_eq_0. by apply gset_size_non_empty.
  - intros Hdisj. destruct (decide (A = ∅)) as [HA|HA].
    + unfold lexical_accuracy. fold A. by rewrite decide_True.
    + rewrite Hgen by done.
      rewrite (proj1 (disjoint_intersection_L A B)) by done.
      by rewrite size_empty, of_nat_0, Qcdiv_0_l.
Qed.

(** The hypotheses of [levenshtein_similarity_spec] on two strings. *)
Lemma levenshtein_similarity_spec_witness :
  levenshtein_similarity "select a" "" = Py.Ok 0%Qc
  ∧ levenshtein_similarity "select a" "select a" = Py.Ok 1%Qc.
Proof.
  split.
  - destruct (levenshtein_similarity_spec "select a" "") as (H & _ & _).
    apply H. by right.
  - destruct (levenshtein_similarity_spec "select a" "select a") as (_ & _ & H).
    apply H. discriminate.
Defined.

Lemma attributes_a_t : extract_attributes "select a from t" = ["a"; "t"].
Proof. vm_compute. reflexivity. Qed.

Lemma attributes_a_b_t :
  extract_attributes "select a, b from t" = ["a"; "b"; "t"].
Proof. vm_compute. reflexivity. Qed.

Lemma attributes_c_u : extract_attributes "select c from u" = ["c"; "u"].
Proof. vm_compute. reflexivity. Qed.

(** The hypotheses of [lexical_accuracy_spec]: a generated query with one
    more attribute than the golden one, and one with other attributes. *)
Lemma lexical_accuracy_spec_witness :
  lexical_accuracy "select a from t" "select a, b from t" = Py.Ok 1%Qc
  ∧ lexical_accuracy "select a from t" "select c from u" = Py.Ok 0%Qc.
Proof.
  split.
  - destruct (lexical_accuracy_spec "select a from t" "select a, b from t")
      as (_ & _ & H & _).
    apply H.
    + rewrite attributes_a_t. intros He.
      apply (not_elem_of_empty (C:=gset string) "a"). rewrite <- He.
      rewrite elem_of_list_to_set, list_elem_of_In. simpl. tauto.
    + rewrite attributes_a_t, attributes_a_b_t. intros x.
      rewrite !elem_of_list_to_set, !list_elem_of_In. simpl. tauto.
  - destruct (lexical_accuracy_spec "select a from t" "select c from u")
      as (_ & _ & _ & H).
    apply H.
    rewrite attributes_a_t, attributes_c_u. intros x.
    rewrite !elem_of_list_to_set, !list_elem_of_In. simpl.
    intros [<-|[<-|[]]] [Hx|[Hx|[]]]; discriminate.
Defined.

End LexicalProperties.

(** ** Rounding *)

Section Rounding.

Lemma round_half_even_range (q : Q) (n : Z) :
  (0 <= q)%Q → (q <= inject_Z n)%Q →
  (0 ≤ Py.round_half_even q ≤ n)%Z.
Proof.
  intros H0 Hn. unfold Py.round_half_even.
  pose proof (Qfloor_resp_le (inject_Z 0) _ H0) as Hf0. rewrite Qfloor_Z in Hf0.
  pose proof (Qfloor_resp_le _ _ Hn) as Hfn. rewrite Qfloor_Z in Hfn.
  destruct (Z.eq_dec (Qfloor q) n) as [Heq|Hne].
  - assert (Hlt : (q - inject_Z (Qfloor q) ?= 1 # 2)%Q = Lt).
    { rewrite <- Qlt_alt. rewrite Heq.
      apply Qle_lt_trans with (y := 0%Q); [|reflexivity].
      rewrite <- (Qplus_opp_r (inject_Z n)).
      apply Qplus_le_l. exact Hn. }
    rewrite Hlt. lia.
  - destruct (q - inject_Z (Qfloor q) ?= 1 # 2)%Q; [destruct (Z.even _)| |]; lia.
Qed.

Lemma Zratio_unit (a b : Z) :
  (0 ≤ a ≤ b)%Z → (0 < b)%Z → (0 ≤ Qc_of_Z a / Qc_of_Z b ≤ 1)%Qc.
Proof.
  intros [Ha Hab] Hb.
  assert (Hpos : (0 < Qc_of_Z b)%Qc).
  { rewrite <- Z2Qc_inj_0. apply (proj1 (Z2Qc_inj_lt 0 b)). exact Hb. }
  pose proof (Qcinv_pos _ Hpos) as Hinv.
  split.
  - unfold Qcdiv. apply Qcmult_nonneg_nonneg; [|by apply Qclt_le_weak].
    rewrite <- Z2Qc_inj_0. apply (proj1 (Z2Qc_inj_le 0 a)). exact Ha.
  - rewrite <- (Qcdiv_same (Qc_of_Z b)) by (by apply Qclt_not_eq in Hpos).
    unfold Qcdiv. apply Qcmult_le_mono_nonneg_r; [by apply Qclt_le_weak|].
    apply (proj1 (Z2Qc_inj_le a b)). exact Hab.
Qed.

(** Rounding to four decimals keeps a number of [0,1] in [0,1]. *)
Lemma round4_unit (q : Qc) : (0 ≤ q ≤ 1)%Qc → (0 ≤ Py.round4 q ≤ 1)%Qc.
Proof.
  intros [H0 H1]. unfold Py.round4.
  apply Zratio_unit; [|done].
  apply round_half_even_range.
  - apply Qmult_le_0_compat; [exact H0 | done].
  - change (inject_Z 10000) with (1 * 10000)%Q.
    apply Qmult_le_compat_r; [|done].
    unfold Qcle in H1. simpl in H1. exact H1.
Qed.

Lemma round4_1 : Py.round4 1 = 1%Qc.
Proof. by apply Qc_is_canon. Qed.

Lemma round4_0 : Py.round4 0 = 0%Qc.
Proof. by apply Qc_is_canon. Qed.

End Rounding.

(** ** The structural metrics: join correctness *)

Section JoinCorrectness.
Import Structural.

(** A tuple of two strings has no tuple among its items. *)
Lemma tuple_contains_tuple (j j2 : string * string) :
  tuple_contains j (as_obj j2) = false.
Proof. reflexivity. Qed.

(** So the test of [join_correctness] fails for every pair of joins. *)
Lemma join_matched_never (joins2 : list (string * string))
    (j : string * string) :
  join_matched joins2 j = false.
Proof.
  unfold join_matched. induction joins2 as [|j2 joins2 IH]; [done|].
  cbn [existsb]. by rewrite !tuple_contains_tuple, IH.
Qed.

Lemma matches_none (joins1 joins2 : list (string * string)) :
  filter (fun j => join_matched joins2 j = true) joins1 = [].
Proof.
  induction joins1 as [|j joins1 IH]; [done|].
  rewrite filter_cons. rewrite decide_False; [done|].
  by rewrite join_matched_never.
Qed.

(** Whenever the golden query has a join, the score is 0.0, whatever the
    generated query is. *)
Lemma join_correctness_zero (sql1 sql2 : string) :
  extract_joins sql1 ≠ [] → join_correctness sql1 sql2 = Py.Ok 0%Qc.
Proof.
  intros Hne. unfold join_correctness.
  destruct (extract_joins sql1) as [|j joins1] eqn:E; [done|].
  rewrite matches_none. simpl length.
  rewrite truediv_nat_ok by done.
  rewrite of_nat_0, Qcdiv_0_l. simpl. by rewrite round4_0.
Qed.

(** C2, on the code: the golden join pair (a,b) against the generated
    pair (b,a) scores 0.0, and so does the golden query against itself;
    the specification says 1.0. *)
Theorem join_correctness_reversed_pair :
  extract_joins "select x from a join b on a.id = b.id" = [("a", "b")]
  ∧ extract_joins "select x from a join b on b.id = a.id" = [("b", "a")]
  ∧ join_correctness "select x from a join b on a.id = b.id"
                     "select x from a join b on b.id = a.id" = Py.Ok 0%Qc
  ∧ join_correctness "select x from a join b on a.id = b.id"
                     "select x from a join b on a.id = b.id" = Py.Ok 0%Qc.
Proof.
  assert (E1 : extract_joins "select x from a join b on a.id = b.id"
               = [("a", "b")]) by (vm_compute; reflexivity).
  assert (E2 : extract_joins "select x from a join b on b.id = a.id"
               = [("b", "a")]) by (vm_compute; reflexivity).
  split_and!; [exact E1 | exact E2 | |];
    apply join_correctness_zero; by rewrite E1.
Qed.

Lemma join_correctness_zero_witness :
  extract_joins "select x from a join b on a.id = b.id" ≠ []
  ∧ join_correctness "select x from a join b on a.id = b.id"
                     "select x from a join b on a.id = b.id" = Py.Ok 0%Qc.
Proof.
  assert (H : extract_joins "select x from a join b on a.id = b.id" ≠ []).
  { vm_compute. discriminate. }
  split; [exact H | exact (join_correctness_zero _ _ H)].
Defined.

End JoinCorrectness.

(** ** The structural metrics: graph similarity *)

Section GraphSimilarity.
Import Structural.

Lemma set_truthy_true (E : edge_set) : set_truthy E = true ↔ E ≠ ∅.
Proof. unfold set_truthy. by rewrite bool_decide_eq_true. Qed.

Lemma set_truthy_false (E : edge_set) : set_truthy E = false ↔ E = ∅.
Proof.
  unfold set_truthy. rewrite bool_decide_eq_false.
  split; [apply dec_stable | intros -> Hn; by apply Hn].
Qed.

(** [E1 or E2] is empty only when both sets are. *)
Lemma set_or_empty (E1 E2 : edge_set) :
  set_truthy (set_or E1 E2) = false → E1 = ∅ ∧ E2 = ∅.
Proof.
  unfold set_or. destruct (set_truthy E1) eqn:H1.
  - congruence.
  - intros H2. by rewrite set_truthy_false in H1, H2.
Qed.

(** The value of [graph_similarity] on two edge sets that are not both
    empty. *)
Lemma graph_similarity_edges_jaccard (E1 E2 : edge_set) :
  ¬ (E1 = ∅ ∧ E2 = ∅) →
  graph_similarity_edges E1 E2
  = (ReturnJaccard,
     Py.Ok (Py.round4 (Py.of_nat (size (E1 ∩ E2)) / Py.of_nat (size (E1 ∪ E2))))).
Proof.
  intros Hne. unfold graph_similarity_edges.
  destruct (negb (set_truthy E1) && negb (set_truthy E2)) eqn:Hboth.
  { apply andb_true_iff in Hboth as [H1 H2].
    apply negb_true_iff in H1, H2. rewrite set_truthy_false in H1, H2.
    by destruct Hne. }
  destruct (negb (set_truthy (set_or E1 E2))) eqn:Hor.
  { apply negb_true_iff, set_or_empty in Hor. by destruct Hne. }
  rewrite truediv_nat_ok; [done|].
  apply gset_size_non_empty. intros HU. apply Hne.
  split; apply set_eq; intros e; set_solver.
Qed.

Lemma graph_similarity_edges_empty :
  graph_similarity_edges ∅ ∅ = (ReturnBothEmpty, Py.Ok 1%Qc).
Proof. reflexivity. Qed.

(** C10: on every pair of edge sets the second test of
    [graph_similarity] cannot succeed, the union is not empty when the
    quotient is taken, and the result is a number of [0,1]; so it is for
    the edge sets of every pair of queries. *)
Theorem graph_similarity_total :
  (∀ E1 E2 : edge_set,
     fst (graph_similarity_edges E1 E2) ≠ ReturnNeither
     ∧ (fst (graph_similarity_edges E1 E2) = ReturnJaccard
        → size (E1 ∪ E2) ≠ 0)
     ∧ ∃ q, snd (graph_similarity_edges E1 E2) = Py.Ok q ∧ (0 ≤ q ≤ 1)%Qc)
  ∧ (∀ sql1 sql2 : string,
     ∃ q, graph_similarity sql1 sql2 = Py.Ok q ∧ (0 ≤ q ≤ 1)%Qc).
Proof.
  assert (Hsets : ∀ E1 E2 : edge_set,
     fst (graph_similarity_edges E1 E2) ≠ ReturnNeither
     ∧ (fst (graph_similarity_edges E1 E2) = ReturnJaccard
        → size (E1 ∪ E2) ≠ 0)
     ∧ ∃ q, snd (graph_similarity_edges E1 E2) = Py.Ok q ∧ (0 ≤ q ≤ 1)%Qc).
  { intros E1 E2.
    destruct (decide (E1 = ∅ ∧ E2 = ∅)) as [[-> ->]|Hne].
    - rewrite graph_similarity_edges_empty. simpl.
      split_and!; [done | done |]. exists 1%Qc. by split.
    - assert (HU : size (E1 ∪ E2) ≠ 0).
      { apply gset_size_non_empty. intros HU. apply Hne.
        split; apply set_eq; intros e; set_solver. }
      rewrite graph_similarity_edges_jaccard by done. simpl.
      split_and!; [done | done |].
      eexists. split; [reflexivity|].
      apply round4_unit, ratio_unit; [|done].
      apply subseteq_size. set_solver. }
  split; [exact Hsets|].
  intros sql1 sql2. unfold graph_similarity.
  apply (Hsets (edges_of sql1) (edges_of sql2)).
Qed.

(** [graph_similarity_total] on two queries with a join: the quotient is
    taken, over a union that is not empty. *)
Lemma graph_similarity_total_witness :
  size (edges_of "select x from a join b on a.id = b.id"
        ∪ edges_of "select x from b join a on a.id = b.id") ≠ 0
  ∧ ∃ q, graph_similarity "select x from a join b on a.id = b.id"
                          "select x from b join a on a.id = b.id" = Py.Ok q
         ∧ (0 ≤ q ≤ 1)%Qc.
Proof.
  destruct graph_similarity_total as [Hsets Hsql].
  split; [|apply Hsql].
  destruct (Hsets (edges_of "select x from a join b on a.id = b.id")
                  (edges_of "select x from b join a on a.id = b.id"))
    as (_ & H & _).
  apply H. vm_compute. reflexivity.
Defined.

End GraphSimilarity.

(** ** The corpus mean of an empty report *)

Section Aggregation.

Variable cosine_similarity_text : string → string → Py.result Qc.
Variable tree_matching_similarity : string → string → Py.result Qc.
Variables alpha beta gamma : Qc.      (* the lexical weights *)
Variables alpha' beta' gamma' : Qc.   (* the structural weights *)

(** Entries that join no golden entry leave the results as they are. *)
Lemma lexical_collect_skips (golden_map : gmap Z string)
    (generated : list Corpus.generation) (results : list Lexical.record) :
  Forall (fun item => Corpus.joined golden_map item = false) generated →
  Lexical.collect cosine_similarity_text alpha beta gamma
    golden_map generated results = Py.Ok results.
Proof.
  induction 1 as [|item generated Hitem _ IH]; [done|].
  simpl. unfold Corpus.joined in Hitem.
  destruct (golden_map !! Corpus.gen_question_id item) as [gold_sql|]; [|done].
  by rewrite Hitem.
Qed.

Lemma structural_collect_skips (golden_map : gmap Z string)
    (generated : list Corpus.generation) (results : list Structural.record) :
  Forall (fun item => Corpus.joined golden_map item = false) generated →
  Structural.collect tree_matching_similarity alpha' beta' gamma'
    golden_map generated results = Py.Ok results.
Proof.
  induction 1 as [|item generated Hitem _ IH]; [done|].
  simpl. unfold Corpus.joined in Hitem.
  destruct (golden_map !! Corpus.gen_question_id item) as [gold_sql|]; [|done].
  by rewrite Hitem.
Qed.

(** C9: when no generated entry joins a golden entry, both evaluators
    raise ZeroDivisionError at the corpus mean; no report is written and
    no result list is returned. *)
Theorem empty_report_raises (dataset : list Corpus.question)
    (generated : list Corpus.generation) :
  Forall (fun item => Corpus.joined (Corpus.golden_map dataset) item = false)
         generated →
  Lexical.evaluate_lexical_metrics cosine_similarity_text alpha beta gamma
    dataset generated
  = Corpus.Outcome None (Py.Raise Py.ZeroDivisionError)
  ∧ Structural.evaluate_structural_metrics tree_matching_similarity
      alpha' beta' gamma' dataset generated
    = Corpus.Outcome None (Py.Raise Py.ZeroDivisionError).
Proof.
  intros Hskip. split.
  - unfold Lexical.evaluate_lexical_metrics.
    rewrite lexical_collect_skips by done.
    simpl length. by rewrite of_nat_0, truediv_zero.
  - unfold Structural.evaluate_structural_metrics.
    rewrite structural_collect_skips by done.
    simpl length. by rewrite of_nat_0, truediv_zero.
Qed.

End Aggregation.

(** The hypothesis of [empty_report_raises] on a corpus whose only
  generated entry has an id that the dataset does not have. *)
Lemma empty_report_raises_witness :
Lexical.evaluate_lexical_metrics (fun _ _ => Py.Ok 1%Qc) 1 1 1
  [Corpus.Question 1 "select a from t"]
  [Corpus.Generation 2 "select a from t"]
= Corpus.Outcome None (Py.Raise Py.ZeroDivisionError)
∧ Structural.evaluate_structural_metrics (fun _ _ => Py.Ok 1%Qc) 1 1 1
    [Corpus.Question 1 "select a from t"]
    [Corpus.Generation 2 "select a from t"]
  = Corpus.Outcome None (Py.Raise Py.ZeroDivisionError).
Proof.
apply (empty_report_raises (fun _ _ => Py.Ok 1%Qc) (fun _ _ => Py.Ok 1%Qc)
         1%Qc 1%Qc 1%Qc 1%Qc 1%Qc 1%Qc
         [Corpus.Question 1 "select a from t"]
         [Corpus.Generation 2 "select a from t"]).
constructor; [vm_compute; reflexivity | constructor].
Defined.

(** ** The structural metrics: edges without orientation *)

Section Undirected.
Import Structural.

(** An edge is reported towards a node that was not visited before. *)
Lemma edges_from_not_seen (seen : list string) (G : Graph.t) (u v : string) :
  (u, v) ∈ Graph.edges_from seen G → v ∉ seen.
Proof.
  revert seen. induction G as [|[n nbrs] G IH]; intros seen; simpl.
  - by rewrite elem_of_nil.
  - rewrite elem_of_app, list_elem_of_fmap. intros [[nbr [Heq Hin]]|Hin].
    + injection Heq as -> ->. by apply list_elem_of_filter in Hin as [? _].
    + apply IH in Hin. rewrite not_elem_of_cons in Hin. tauto.
Qed.

Lemma edges_from_source (seen : list string) (n : string) (nbrs : list string)
    (G : Graph.t) (u v : string) :
  (u, v) ∈ Graph.edges_from seen ((n, nbrs) :: G) →
  u = n ∨ (u, v) ∈ Graph.edges_from (n :: seen) G.
Proof.
  simpl. rewrite elem_of_app, list_elem_of_fmap.
  intros [[nbr [Heq _]]|Hin]; [left | by right]. by injection Heq.
Qed.

(** An edge is reported in one orientation only. *)
Lemma edges_from_one_orientation (seen : list string) (G : Graph.t)
    (u v : string) :
  (u, v) ∈ Graph.edges_from seen G → (v, u) ∈ Graph.edges_from seen G → u = v.
Proof.
  revert seen. induction G as [|[n nbrs] G IH]; intros seen Huv Hvu.
  - simpl in Huv. by rewrite elem_of_nil in Huv.
  - destruct (edges_from_source _ _ _ _ _ _ Huv) as [->|Huv'];
      destruct (edges_from_source _ _ _ _ _ _ Hvu) as [->|Hvu']; try done.
    + apply edges_from_not_seen in Hvu'. rewrite not_elem_of_cons in Hvu'.
      by destruct Hvu'.
    + apply edges_from_not_seen in Huv'. rewrite not_elem_of_cons in Huv'.
      by destruct Huv'.
    + by apply (IH (n :: seen)).
Qed.

Lemma edges_of_one_orientation (sql : string) (u v : string) :
  (u, v) ∈ edges_of sql → (v, u) ∈ edges_of sql → u = v.
Proof.
  unfold edges_of. rewrite !elem_of_list_to_set.
  apply edges_from_one_orientation.
Qed.

(** Two pairs over the same two nodes are the same pair or each the
    reverse of the other. *)
Lemma unordered_eq (u v u' v' : string) :
  unordered (u, v) = unordered (u', v') →
  (u', v') = (u, v) ∨ (u', v') = (v, u).
Proof.
  unfold unordered. simpl. intros Heq.
  assert (Hu : u ∈ ({[u'; v']} : gset string)) by (rewrite <- Heq; set_solver).
  assert (Hv : v ∈ ({[u'; v']} : gset string)) by (rewrite <- Heq; set_solver).
  assert (Hu' : u' ∈ ({[u; v]} : gset string)) by (rewrite Heq; set_solver).
  assert (Hv' : v' ∈ ({[u; v]} : gset string)) by (rewrite Heq; set_solver).
  rewrite elem_of_union, !elem_of_singleton in Hu, Hv, Hu', Hv'.
  destruct Hu as [->| ->], Hv as [->| ->], Hu' as [Hu'|Hu'], Hv' as [Hv'|Hv'];
    subst; auto.
Qed.

Section SetMap.
Context `{Countable A, Countable B} (f : A → B).

(** A map that is injective on a set keeps its size. *)
Lemma size_set_map_inj (X : gset A) :
  (∀ x y, x ∈ X → y ∈ X → f x = f y → x = y) →
  size (set_map f X : gset B) = size X.
Proof.
  induction X as [|x X Hx IH] using set_ind_L; intros Hinj.
  - by rewrite set_map_empty, !size_empty.
  - rewrite set_map_union_L, set_map_singleton_L.
    rewrite !size_union, !size_singleton.
    + rewrite IH; [done|]. intros y z Hy Hz. apply Hinj; set_solver.
    + set_solver.
    + intros y Hy1 Hy2. apply elem_of_singleton in Hy1 as ->.
      apply elem_of_map in Hy2 as [z [Heq Hz]].
      apply Hinj in Heq; [| set_solver | set_solver]. by subst.
Qed.

Lemma set_map_intersection_inj (X Y : gset A) :
  (∀ x y, x ∈ X ∪ Y → y ∈ X ∪ Y → f x = f y → x = y) →
  (set_map f (X ∩ Y) : gset B) = set_map f X ∩ set_map f Y.
Proof.
  intros Hinj. apply set_eq. intros b.
  rewrite elem_of_intersection, !elem_of_map. split.
  - intros [x [-> Hx]]. split; exists x; set_solver.
  - intros [[x [-> Hx]] [y [Heq Hy]]].
    apply Hinj in Heq; [| set_solver | set_solver]. subst y.
    exists x. set_solver.
Qed.

End SetMap.

(** Forgetting the orientation is injective on two edge sets that are
    oriented alike and that each hold an edge in one orientation only. *)
Lemma unordered_inj_on (E1 E2 : edge_set) :
  (∀ u v, (u, v) ∈ E1 → (v, u) ∈ E1 → u = v) →
  (∀ u v, (u, v) ∈ E2 → (v, u) ∈ E2 → u = v) →
  oriented_alike E1 E2 →
  ∀ e e', e ∈ E1 ∪ E2 → e' ∈ E1 ∪ E2 → unordered e = unordered e' → e = e'.
Proof.
  intros H1 H2 H12 [u v] [u' v'] He He' Heq.
  apply unordered_eq in Heq as [Heq|Heq]; [done|].
  injection Heq as -> ->.
  apply elem_of_union in He, He'.
  assert (u = v) as ->; [|done].
  destruct He as [He|He], He' as [He'|He'].
  - by apply H1.
  - by apply H12.
  - symmetry. by apply H12.
  - by apply H2.
Qed.

(** On such edge sets the Jaccard index of the ordered pairs is that of the
    unordered ones. *)
Lemma jaccard_undirected (E1 E2 : edge_set) :
  (∀ e e', e ∈ E1 ∪ E2 → e' ∈ E1 ∪ E2 → unordered e = unordered e' → e = e') →
  jaccard (undirected E1) (undirected E2) = jaccard E1 E2.
Proof.
  intros Hinj. unfold jaccard, undirected.
  rewrite <- (set_map_intersection_inj unordered E1 E2) by done.
  rewrite <- set_map_union_L.
  rewrite (size_set_map_inj unordered (E1 ∩ E2)).
  - by rewrite (size_set_map_inj unordered (E1 ∪ E2)).
  - intros e e' He He'. apply Hinj; set_solver.
Qed.

Lemma undirected_eq (E1 E2 : edge_set) :
  (∀ e e', e ∈ E1 ∪ E2 → e' ∈ E1 ∪ E2 → unordered e = unordered e' → e = e') →
  undirected E1 = undirected E2 → E1 = E2.
Proof.
  intros Hinj Heq. apply set_eq. intros e. split; intros He.
  - assert (Hu : unordered e ∈ undirected E2).
    { rewrite <- Heq. apply elem_of_map. by exists e. }
    apply elem_of_map in Hu as [e' [Heq' He']].
    apply Hinj in Heq'; [by subst | set_solver | set_solver].
  - assert (Hu : unordered e ∈ undirected E1).
    { rewrite Heq. apply elem_of_map. by exists e. }
    apply elem_of_map in Hu as [e' [Heq' He']].
    apply Hinj in Heq'; [by subst | set_solver | set_solver].
Qed.

End Undirected.

(** ** The structural metrics: graph similarity and the Jaccard index *)

Section GraphJaccard.
Import Structural.

(** The edges of the graphs of four queries, as [G.edges()] lists them. *)
Lemma edges_a_join_b :
  Graph.edges (build_graph "select x from a join b on a.id = b.id")
  = [("a", "b")].
Proof. vm_compute. reflexivity. Qed.

Lemma edges_a_join_b_again :
  Graph.edges (build_graph "select y from a join b on a.id = b.id")
  = [("a", "b")].
Proof. vm_compute. reflexivity. Qed.

Lemma edges_b_join_a :
  Graph.edges (build_graph "select x from b join a on a.id = b.id")
  = [("b", "a")].
Proof. vm_compute. reflexivity. Qed.

Lemma edges_a_join_bcd :
  Graph.edges (build_graph
    "select x from a join b on a.id = b.id and a.k = c.k and a.z = d.z")
  = [("a", "b"); ("a", "c"); ("a", "d")].
Proof. vm_compute. reflexivity. Qed.

Lemma oriented_alike_ab_abcd :
  oriented_alike
    (edges_of "select x from a join b on a.id = b.id")
    (edges_of "select x from a join b on a.id = b.id and a.k = c.k and a.z = d.z").
Proof.
  unfold edges_of. rewrite edges_a_join_b, edges_a_join_bcd.
  intros u v Hu Hv. rewrite elem_of_list_to_set in Hu, Hv.
  rewrite list_elem_of_In in Hu, Hv. simpl in Hu, Hv.
  destruct Hu as [Hu|[]]. injection Hu as <- <-.
  destruct Hv as [Hv|[Hv|[Hv|[]]]]; discriminate.
Qed.

(** Two inputs on which the result is not the Jaccard index of the
    unordered edges.  One edge against three edges of which one is shared:
    the index is 1/3 and [graph_similarity] returns 0.3333, the index
    rounded to four decimals.  The same join written from the other table:
    the two graphs have the same edge, reported as (a,b) by one and as
    (b,a) by the other, and [graph_similarity] returns 0.0. *)
Lemma graph_similarity_is_not_the_jaccard_index :
  (jaccard (undirected (edges_of "select x from a join b on a.id = b.id"))
           (undirected (edges_of
              "select x from a join b on a.id = b.id and a.k = c.k and a.z = d.z"))
   = Q2Qc (1 # 3)
   ∧ graph_similarity
       "select x from a join b on a.id = b.id"
       "select x from a join b on a.id = b.id and a.k = c.k and a.z = d.z"
     = Py.Ok (Q2Qc (3333 # 10000))
   ∧ Q2Qc (3333 # 10000) ≠ Q2Qc (1 # 3))
  ∧ (undirected (edges_of "select x from a join b on a.id = b.id")
     = undirected (edges_of "select x from b join a on a.id = b.id")
     ∧ graph_similarity "select x from a join b on a.id = b.id"
                        "select x from b join a on a.id = b.id" = Py.Ok 0%Qc
     ∧ Py.Ok 0%Qc ≠ Py.Ok 1%Qc).
Proof.
  split; split_and!.
  - rewrite jaccard_undirected.
    + evaluate.
    + apply unordered_inj_on;
        [intros u v; apply edges_of_one_orientation ..
        | apply oriented_alike_ab_abcd].
  - evaluate.
  - discriminate.
  - unfold edges_of, undirected. rewrite edges_a_join_b, edges_b_join_a.
    simpl list_to_set. rewrite !union_empty_r_L, !set_map_singleton_L.
    unfold unordered. simpl. apply set_eq. intros x. set_solver.
  - evaluate.
  - discriminate.
Qed.

(** Where the orientation does not show: [graph_similarity] is 1.0 when
    both graphs have no edge; for two queries whose graphs report no common
    edge in opposite orientations it is the Jaccard index of the two sets
    of unordered edges, rounded to four decimals, and it is 1.0 when these
    two sets are equal. *)
Theorem graph_similarity_jaccard (sql1 sql2 : string) :
  (edges_of sql1 = ∅ → edges_of sql2 = ∅ →
     graph_similarity sql1 sql2 = Py.Ok 1%Qc)
  ∧ (oriented_alike (edges_of sql1) (edges_of sql2) →
     ¬ (edges_of sql1 = ∅ ∧ edges_of sql2 = ∅) →
     graph_similarity sql1 sql2
     = Py.Ok (Py.round4 (jaccard (undirected (edges_of sql1))
                                 (undirected (edges_of sql2)))))
  ∧ (oriented_alike (edges_of sql1) (edges_of sql2) →
     undirected (edges_of sql1) = undirected (edges_of sql2) →
     graph_similarity sql1 sql2 = Py.Ok 1%Qc).
Proof.
  set (E1 := edges_of sql1). set (E2 := edges_of sql2).
  assert (Hinj : oriented_alike E1 E2 →
            ∀ e e', e ∈ E1 ∪ E2 → e' ∈ E1 ∪ E2 →
                    unordered e = unordered e' → e = e').
  { intros Hal. apply unordered_inj_on; [| |done];
      intros u v; apply edges_of_one_orientation. }
  assert (Hempty : E1 = ∅ → E2 = ∅ → graph_similarity sql1 sql2 = Py.Ok 1%Qc).
  { intros H1 H2. unfold graph_similarity. fold E1 E2.
    by rewrite H1, H2, graph_similarity_edges_empty. }
  assert (Hjac : oriented_alike E1 E2 → ¬ (E1 = ∅ ∧ E2 = ∅) →
            graph_similarity sql1 sql2
            = Py.Ok (Py.round4 (jaccard (undirected E1) (undirected E2)))).
  { intros Hal Hne. unfold graph_similarity. fold E1 E2.
    rewrite graph_similarity_edges_jaccard by done. simpl.
    by rewrite jaccard_undirected by auto. }
  split_and!; [done | done |].
  intros Hal Heq.
  destruct (decide (E1 = ∅ ∧ E2 = ∅)) as [[H1 H2]|Hne]; [by apply Hempty|].
  rewrite Hjac by done. rewrite jaccard_undirected by auto.
  apply undirected_eq in Heq; [|auto]. rewrite <- Heq in Hne |- *.
  unfold jaccard.
  replace (E1 ∩ E1) with E1 by set_solver.
  replace (E1 ∪ E1) with E1 by set_solver.
  rewrite Qcdiv_same, round4_1; [done|].
  rewrite of_nat_eq_0. apply gset_size_non_empty. tauto.
Qed.

(** The hypotheses of the last part of [graph_similarity_jaccard] on two
    queries with the same join. *)
Lemma graph_similarity_jaccard_witness :
  graph_similarity "select x from a join b on a.id = b.id"
                   "select y from a join b on a.id = b.id" = Py.Ok 1%Qc.
Proof.
  destruct (graph_similarity_jaccard
              "select x from a join b on a.id = b.id"
              "select y from a join b on a.id = b.id") as (_ & _ & H).
  apply H; unfold edges_of; rewrite edges_a_join_b, edges_a_join_b_again.
  - intros u v Hu Hv. rewrite elem_of_list_to_set in Hu, Hv.
    rewrite list_elem_of_In in Hu, Hv. simpl in Hu, Hv.
    destruct Hu as [Hu|[]], Hv as [Hv|[]]. congruence.
  - reflexivity.
Defined.

(** *** The orientation of the edges *)

Lemma undirected_singleton (u v : string) :
  undirected {[(u, v)]} = {[ ({[u; v]} : gset string) ]}.
Proof. unfold undirected. by rewrite set_map_singleton_L. Qed.

(** One edge, held as (u, v) by one set and as (v, u) by the other: the
    two sets of unordered edges are equal and the score is 0.0. *)
Lemma graph_similarity_edges_reversed (u v : string) :
  u ≠ v →
  undirected {[(u, v)]} = undirected {[(v, u)]}
  ∧ snd (graph_similarity_edges {[(u, v)]} {[(v, u)]}) = Py.Ok 0%Qc.
Proof.
  intros Huv. split.
  - rewrite !undirected_singleton. f_equal. apply set_eq. set_solver.
  - rewrite graph_similarity_edges_jaccard.
    + cbn [snd].
      assert (E : ({[(u, v)]} : edge_set) ∩ {[(v, u)]} = ∅).
      { apply set_eq. intros [a b].
        rewrite elem_of_intersection, !elem_of_singleton. split; [|set_solver].
        intros [H1 H2]. congruence. }
      by rewrite E, size_empty, of_nat_0, Qcdiv_0_l, round4_0.
    + intros [H _]. set_solver.
Qed.

(** The same join with the two sides of its predicate exchanged: the
    tables are met in the same order, and so is the edge reported. *)
Lemma edges_a_join_b_reversed_predicate :
  Graph.edges (build_graph "select x from a join b on b.id = a.id")
  = [("a", "b")].
Proof. vm_compute. reflexivity. Qed.

(** C4: the code does not treat the edges as unordered pairs.  It compares
    the ordered pairs that [G.edges()] reports: whenever the two graphs are
    not both without an edge, the result is the Jaccard index of the two
    sets of ordered pairs, rounded to four decimals.  So two queries whose
    graphs have the same single edge, reported as (u, v) by one and as
    (v, u) by the other, have the same undirected graph and score 0.0,
    where the claim gives 1.0.  That is the case of one join written from
    either table, "from a join b" against "from b join a".  With the
    tables in the same order and the two sides of the predicate exchanged
    the edge is reported alike and the score is 1.0: the graph is
    undirected, the comparison of its edges is not. *)
Theorem graph_similarity_edge_orientation :
  (∀ sql1 sql2,
     ¬ (edges_of sql1 = ∅ ∧ edges_of sql2 = ∅) →
     graph_similarity sql1 sql2
     = Py.Ok (Py.round4 (jaccard (edges_of sql1) (edges_of sql2))))
  ∧ (∀ sql1 sql2 u v,
       u ≠ v → edges_of sql1 = {[(u, v)]} → edges_of sql2 = {[(v, u)]} →
       undirected (edges_of sql1) = undirected (edges_of sql2)
       ∧ graph_similarity sql1 sql2 = Py.Ok 0%Qc)
  ∧ (edges_of "select x from a join b on a.id = b.id" = {[("a", "b")]}
     ∧ edges_of "select x from b join a on a.id = b.id" = {[("b", "a")]}
     ∧ undirected (edges_of "select x from a join b on a.id = b.id")
       = undirected (edges_of "select x from b join a on a.id = b.id")
     ∧ graph_similarity "select x from a join b on a.id = b.id"
                        "select x from b join a on a.id = b.id" = Py.Ok 0%Qc)
  ∧ (edges_of "select x from a join b on b.id = a.id" = {[("a", "b")]}
     ∧ graph_similarity "select x from a join b on a.id = b.id"
                        "select x from a join b on b.id = a.id" = Py.Ok 1%Qc).
Proof.
  assert (Hab : edges_of "select x from a join b on a.id = b.id"
                = {[("a", "b")]}).
  { unfold edges_of. rewrite edges_a_join_b. simpl. apply union_empty_r_L. }
  assert (Hba : edges_of "select x from b join a on a.id = b.id"
                = {[("b", "a")]}).
  { unfold edges_of. rewrite edges_b_join_a. simpl. apply union_empty_r_L. }
  assert (Hab' : edges_of "select x from a join b on b.id = a.id"
                 = {[("a", "b")]}).
  { unfold edges_of. rewrite edges_a_join_b_reversed_predicate. simpl.
    apply union_empty_r_L. }
  assert (Hrev : ∀ sql1 sql2 u v,
            u ≠ v → edges_of sql1 = {[(u, v)]} → edges_of sql2 = {[(v, u)]} →
            undirected (edges_of sql1) = undirected (edges_of sql2)
            ∧ graph_similarity sql1 sql2 = Py.Ok 0%Qc).
  { intros sql1 sql2 u v Huv H1 H2. unfold graph_similarity.
    rewrite H1, H2. by apply graph_similarity_edges_reversed. }
  split_and!.
  - intros sql1 sql2 Hne. unfold graph_similarity.
    by rewrite graph_similarity_edges_jaccard.
  - exact Hrev.
  - exact Hab.
  - exact Hba.
  - by apply (Hrev _ _ "a" "b").
  - by apply (Hrev _ _ "a" "b").
  - exact Hab'.
  - unfold graph_similarity. rewrite Hab, Hab'.
    rewrite graph_similarity_edges_jaccard by (intros [H _]; set_solver).
    cbn [snd].
    replace (({[("a", "b")]} : edge_set) ∩ {[("a", "b")]})
      with ({[("a", "b")]} : edge_set) by set_solver.
    replace (({[("a", "b")]} : edge_set) ∪ {[("a", "b")]})
      with ({[("a", "b")]} : edge_set) by set_solver.
    rewrite size_singleton, Qcdiv_same, round4_1; [done|].
    by rewrite of_nat_eq_0.
Qed.

End GraphJaccard.

(** ** Characters and strings *)

Section Strings.

Lemma lower_lower (c : ascii) : Char.lower (Char.lower c) = Char.lower c.
Proof. by_bits c. Qed.

Lemma lower_space (c : ascii) : Char.is_space c = true → Char.lower c = c.
Proof. by_bits c. Qed.

Lemma is_space_lower (c : ascii) :
  Char.is_space (Char.lower c) = Char.is_space c.
Proof. by_bits c. Qed.

Lemma space_not_backtick (c : ascii) :
  Char.is_space c = true → Char.eqb "`" c = false.
Proof. by_bits c. Qed.

Lemma str_lower_lower (s : string) : Str.lower (Str.lower s) = Str.lower s.
Proof.
  induction s as [|c s IH]; [done|].
  unfold Str.lower in *. simpl. by rewrite lower_lower, IH.
Qed.

Lemma str_lower_spaces (s : string) :
  Str.forallb Char.is_space s = true → Str.lower s = s.
Proof.
  induction s as [|c s IH]; [done|]. simpl.
  intros [Hc Hs]%andb_true_iff. unfold Str.lower in *. simpl.
  by rewrite lower_space, IH.
Qed.

Lemma forallb_app (p : ascii → bool) (s t : string) :
  Str.forallb p (s +:+ t) = Str.forallb p s && Str.forallb p t.
Proof.
  induction s as [|c s IH]; [done|]. simpl. by rewrite IH, andb_assoc.
Qed.

Lemma length_lstrip (s : string) :
  (String.length (Str.lstrip s) ≤ String.length s)%nat.
Proof.
  induction s as [|c s IH]; [done|]. simpl.
  destruct (Char.is_space c); simpl; lia.
Qed.

Lemma forallb_lstrip (p : ascii → bool) (s : string) :
  Str.forallb p s = true → Str.forallb p (Str.lstrip s) = true.
Proof.
  induction s as [|c s IH]; [done|]. simpl.
  intros [Hc Hs]%andb_true_iff.
  destruct (Char.is_space c); [auto|]. simpl. by rewrite Hc, Hs.
Qed.

Lemma forallb_rstrip (p : ascii → bool) (s : string) :
  Str.forallb p s = true → Str.forallb p (Str.rstrip s) = true.
Proof.
  induction s as [|c s IH]; [done|]. simpl.
  intros [Hc Hs]%andb_true_iff. specialize (IH Hs).
  destruct (Str.rstrip s) as [|d t].
  - destruct (Char.is_space c); [done|]. simpl. by rewrite Hc.
  - simpl in *. by rewrite Hc, IH.
Qed.

Lemma forallb_strip (p : ascii → bool) (s : string) :
  Str.forallb p s = true → Str.forallb p (Str.strip s) = true.
Proof. intros. by apply forallb_rstrip, forallb_lstrip. Qed.

(** What [rstrip] keeps does not end with white space, so stripping
    again changes nothing. *)
Lemma rstrip_rstrip (s : string) : Str.rstrip (Str.rstrip s) = Str.rstrip s.
Proof.
  induction s as [|c s IH]; [done|]. simpl.
  destruct (Str.rstrip s) as [|d t] eqn:E.
  - destruct (Char.is_space c) eqn:Hc; [done|]. simpl. by rewrite Hc.
  - change (Str.rstrip (String c (String d t))
            = String c (String d t)).
    cbn [Str.rstrip]. cbn [Str.rstrip] in IH. by rewrite IH.
Qed.

Lemma lstrip_head (s : string) :
  match Str.lstrip s with
  | EmptyString => True
  | String c _ => Char.is_space c = false
  end.
Proof.
  induction s as [|c s IH]; [done|]. simpl.
  destruct (Char.is_space c) eqn:Hc; [done|]. by simpl.
Qed.

Lemma rstrip_head (s : string) (c : ascii) :
  Char.is_space c = false →
  ∃ t, Str.rstrip (String c s) = String c t.
Proof.
  intros Hc. simpl. destruct (Str.rstrip s); rewrite ?Hc; eauto.
Qed.

Lemma strip_strip (s : string) : Str.strip (Str.strip s) = Str.strip s.
Proof.
  unfold Str.strip.
  pose proof (lstrip_head s) as Hh.
  destruct (Str.lstrip s) as [|c u] eqn:E; [done|].
  destruct (rstrip_head u c Hh) as [t Ht]. rewrite Ht.
  cbn [Str.lstrip]. rewrite Hh. rewrite <- Ht. apply rstrip_rstrip.
Qed.

End Strings.

(** ** Substitutions *)

Section Substitutions.
Import Re.

(** *** Facts that hold for every pattern *)

(** The characters of the result come from the input and from the
    replacement. *)
Lemma sub_from_forallb (p : ascii → bool) (r : regex) (repl : string) :
  Str.forallb p repl = true →
  ∀ s pv skip, Str.forallb p s = true →
               Str.forallb p (sub_from r repl pv s skip) = true.
Proof.
  intros Hrepl. induction s as [|c s IH]; intros pv skip Hs.
  - simpl. destruct skip; [|done]. by destruct (match_here r pv "").
  - simpl in Hs. apply andb_true_iff in Hs as [Hc Hs]. simpl.
    destruct skip as [|n]; [|by apply IH].
    destruct (match_here r pv (String c s)) as [[rest cs]|].
    + destruct (_ - _)%nat; rewrite forallb_app, Hrepl; simpl.
      * by rewrite Hc, IH.
      * by apply IH.
    + simpl. by rewrite Hc, IH.
Qed.

Lemma sub_forallb (p : ascii → bool) (r : regex) (repl s : string) :
  Str.forallb p repl = true → Str.forallb p s = true →
  Str.forallb p (sub r repl s) = true.
Proof. intros. by apply sub_from_forallb. Qed.

(** A pattern that is found nowhere leaves the string as it is. *)
Lemma sub_from_not_found (r : regex) (repl : string) :
  ∀ s pv, scan r pv s 0 = [] → sub_from r repl pv s 0 = s.
Proof.
  induction s as [|c s IH]; intros pv Hscan; simpl in *.
  - by destruct (match_here r pv "") as [[rest cs]|].
  - destruct (match_here r pv (String c s)) as [[rest cs]|]; [done|].
    by rewrite IH.
Qed.

Lemma sub_not_found (r : regex) (repl s : string) :
  search r s = false → sub r repl s = s.
Proof.
  unfold search, finditer, sub. intros H. apply sub_from_not_found.
  by destruct (scan r None s 0).
Qed.

(** *** Removing a character *)

Lemma match_here_chr (c d : ascii) (pv : option ascii) (s : string) :
  match_here (Chr c) pv (String d s)
  = if Char.eqb c d then Some (s, []) else None.
Proof. reflexivity. Qed.

Lemma sub_from_chr (c : ascii) :
  ∀ s pv, sub_from (Chr c) "" pv s 0 = Str.remove c s.
Proof.
  induction s as [|d s IH]; intros pv; [done|].
  cbn [sub_from Str.remove]. rewrite match_here_chr.
  destruct (Char.eqb c d).
  - replace (String.length (String d s) - String.length s)%nat with 1%nat
      by (simpl; lia).
    simpl. apply IH.
  - by rewrite IH.
Qed.

Lemma sub_chr (c : ascii) (s : string) : sub (Chr c) "" s = Str.remove c s.
Proof. apply sub_from_chr. Qed.

Lemma remove_absent (c : ascii) (s : string) :
  Str.forallb (Char.isnt c) s = true → Str.remove c s = s.
Proof.
  induction s as [|d s IH]; [done|]. simpl.
  intros [Hd Hs]%andb_true_iff. apply negb_true_iff in Hd.
  by rewrite Hd, IH.
Qed.

Lemma remove_removes (c : ascii) (s : string) :
  Str.forallb (Char.isnt c) (Str.remove c s) = true.
Proof.
  induction s as [|d s IH]; [done|]. simpl.
  destruct (Char.eqb c d) eqn:E; [done|]. simpl.
  unfold Char.isnt at 1. by rewrite E, IH.
Qed.

Lemma remove_forallb (p : ascii → bool) (c : ascii) (s : string) :
  Str.forallb p s = true → Str.forallb p (Str.remove c s) = true.
Proof.
  induction s as [|d s IH]; [done|]. simpl.
  intros [Hd Hs]%andb_true_iff.
  destruct (Char.eqb c d); [auto|]. simpl. by rewrite Hd, IH.
Qed.

(** *** Collapsing white space *)

Lemma rep_greedy_spaces (s : string) :
  ∀ pv cs, rep_greedy Char.is_space 0 pv s cs accept = Some (Str.lstrip s, cs).
Proof.
  induction s as [|c s IH]; intros pv cs; [done|]. simpl.
  destruct (Char.is_space c); [|done]. by rewrite IH.
Qed.

Lemma match_here_spaces (c : ascii) (pv : option ascii) (s : string) :
  match_here Pat.spaces pv (String c s)
  = if Char.is_space c then Some (Str.lstrip s, []) else None.
Proof.
  unfold match_here, Pat.spaces, Plus. simpl.
  destruct (Char.is_space c); [|done]. by rewrite rep_greedy_spaces.
Qed.

(** The number of white-space characters at the front of [s]. *)
Lemma lead_space (c : ascii) (s : string) :
  (String.length (String c s) - String.length (Str.lstrip s)
   = S (String.length s - String.length (Str.lstrip s)))%nat.
Proof. pose proof (length_lstrip s). simpl. lia. Qed.

Lemma sub_from_cons_0 (r : regex) (repl : string) (pv : option ascii)
    (c : ascii) (s : string) :
  sub_from r repl pv (String c s) 0
  = match match_here r pv (String c s) with
    | Some (rest, _) =>
        match (String.length (String c s) - String.length rest)%nat with
        | O => repl +:+ String c (sub_from r repl (Some c) s 0)
        | S n => repl +:+ sub_from r repl (Some c) s n
        end
    | None => String c (sub_from r repl (Some c) s 0)
    end.
Proof. reflexivity. Qed.

Lemma sub_from_cons_S (r : regex) (repl : string) (pv : option ascii)
    (c : ascii) (s : string) (n : nat) :
  sub_from r repl pv (String c s) (S n) = sub_from r repl (Some c) s n.
Proof. reflexivity. Qed.

Lemma sub_from_spaces (s : string) :
  ∀ pv,
    sub_from Pat.spaces " " pv s 0 = Str.collapse false s
    ∧ sub_from Pat.spaces " " pv s
        (String.length s - String.length (Str.lstrip s))
      = Str.collapse true s.
Proof.
  induction s as [|c s IH]; intros pv; [done|].
  destruct (IH (Some c)) as [IH0 IHk].
  assert (H0 : sub_from Pat.spaces " " pv (String c s) 0
               = Str.collapse false (String c s)).
  { rewrite sub_from_cons_0, match_here_spaces. cbn [Str.collapse].
    destruct (Char.is_space c).
    - rewrite lead_space. by rewrite IHk.
    - by rewrite IH0. }
  split; [exact H0|].
  cbn [Str.lstrip Str.collapse]. destruct (Char.is_space c) eqn:Hc.
  - rewrite lead_space, sub_from_cons_S. exact IHk.
  - rewrite Nat.sub_diag, H0. cbn [Str.collapse]. by rewrite Hc.
Qed.

Lemma sub_spaces (s : string) : sub Pat.spaces " " s = Str.collapse false s.
Proof. apply sub_from_spaces. Qed.

(** White space that is all there is collapses to nothing after a blank. *)
Lemma collapse_spaces (s : string) :
  Str.forallb Char.is_space s = true → Str.collapse true s = "".
Proof.
  induction s as [|c s IH]; [done|]. simpl.
  intros [Hc Hs]%andb_true_iff. rewrite Hc. auto.
Qed.

Lemma collapse_forallb (p : ascii → bool) (s : string) :
  p " "%char = true → Str.forallb p s = true →
  ∀ b, Str.forallb p (Str.collapse b s) = true.
Proof.
  intros Hblank. induction s as [|c s IH]; [done|]. simpl.
  intros [Hc Hs]%andb_true_iff b. specialize (IH Hs).
  destruct (Char.is_space c), b; simpl; rewrite ?Hblank, ?Hc, ?IH; done.
Qed.

End Substitutions.

(** ** The normalizers *)

Section Normalizers.
Import Re.

(** The normalizers with the three simple substitutions written out. *)
Lemma structural_normalize_sql_eq (s : string) :
  Structural.normalize_sql s
  = Str.strip (Str.remove ";" (sub Pat.as_word " "
      (Str.collapse false (Str.remove "`" (Str.lower s))))).
Proof.
  unfold Structural.normalize_sql, Pat.backtick, Pat.semicolon.
  by rewrite !sub_chr, sub_spaces.
Qed.

Lemma lexical_normalize_sql_eq (s : string) :
  Lexical.normalize_sql s
  = Str.strip (Str.remove ";" (sub Pat.qualifier "" (sub Pat.as_word " "
      (Str.collapse false (Str.remove "`" (Str.lower s)))))).
Proof.
  unfold Lexical.normalize_sql, Pat.backtick, Pat.semicolon.
  by rewrite !sub_chr, sub_spaces.
Qed.

(** *** White space only *)

Lemma spaces_no_backtick (s : string) :
  Str.forallb Char.is_space s = true →
  Str.forallb (Char.isnt "`") s = true.
Proof.
  induction s as [|c s IH]; [done|]. simpl.
  intros [Hc Hs]%andb_true_iff. rewrite IH by done.
  unfold Char.isnt. by rewrite space_not_backtick.
Qed.

Lemma collapse_blank (s : string) :
  Str.forallb Char.is_space s = true →
  Str.collapse false s = "" ∨ Str.collapse false s = " ".
Proof.
  destruct s as [|c s]; [by left|]. simpl.
  intros [Hc Hs]%andb_true_iff. rewrite Hc, collapse_spaces by done.
  by right.
Qed.

(** C8: each normalizer has exactly one result on every string, and on a
    string that is empty or made of white space only that result is the
    empty string. *)
Theorem normalize_sql_total (s : string) :
  (∃ t, Lexical.normalize_sql s = t
        ∧ ∀ t', Lexical.normalize_sql s = t' → t' = t)
  ∧ (∃ t, Structural.normalize_sql s = t
          ∧ ∀ t', Structural.normalize_sql s = t' → t' = t)
  ∧ (Str.forallb Char.is_space s = true →
     Lexical.normalize_sql s = "" ∧ Structural.normalize_sql s = "").
Proof.
  split_and!.
  - exists (Lexical.normalize_sql s). by split.
  - exists (Structural.normalize_sql s). by split.
  - intros Hs.
    rewrite lexical_normalize_sql_eq, structural_normalize_sql_eq.
    rewrite str_lower_spaces by done.
    rewrite (remove_absent "`" s) by (by apply spaces_no_backtick).
    by destruct (collapse_blank s Hs) as [-> | ->].
Qed.

(** [normalize_sql_total] on a blank, a tab and a newline. *)
Lemma normalize_sql_total_witness :
  Lexical.normalize_sql (String " " (String "009" (String "010" ""))) = ""
  ∧ Structural.normalize_sql (String " " (String "009" (String "010" ""))) = "".
Proof.
  apply (normalize_sql_total (String " " (String "009" (String "010" "")))).
  reflexivity.
Defined.

(** *** Case *)

Lemma lowered_lower (s : string) :
  Str.forallb Char.lowered (Str.lower s) = true.
Proof.
  induction s as [|c s IH]; [done|]. unfold Str.lower in *. simpl.
  rewrite IH, andb_true_r. unfold Char.lowered.
  rewrite lower_lower. apply char_eqb_refl.
Qed.

Lemma lower_lowered (s : string) :
  Str.forallb Char.lowered s = true → Str.lower s = s.
Proof.
  induction s as [|c s IH]; [done|]. simpl.
  intros [Hc Hs]%andb_true_iff. unfold Str.lower in *. simpl.
  apply char_eqb_eq in Hc. by rewrite Hc, IH.
Qed.

(** *** Runs of white space *)

Lemma collapse_lower (s : string) (b : bool) :
  Str.collapse b (Str.lower s) = Str.lower (Str.collapse b s).
Proof.
  revert b. induction s as [|c s IH]; intros b; [done|].
  unfold Str.lower in *. simpl. rewrite is_space_lower.
  destruct (Char.is_space c), b; simpl; by rewrite IH.
Qed.

Lemma eqb_space (c d : ascii) :
  Char.is_space c = false → Char.is_space d = true → Char.eqb c d = false.
Proof.
  intros Hc Hd. destruct (Char.eqb c d) eqn:E; [|done].
  apply char_eqb_eq in E. congruence.
Qed.

(** Removing a character that is not white space, then collapsing: the
    result is the same from a string and from its collapsed form. *)
Lemma collapse_remove_collapse (c : ascii) (s : string) :
  Char.is_space c = false →
  ∀ b b', (b' = true → b = true) →
    Str.collapse b (Str.remove c (Str.collapse b' s))
    = Str.collapse b (Str.remove c s).
Proof.
  intros Hc. induction s as [|d s IH]; intros b b' Hb; [done|].
  cbn [Str.collapse Str.remove].
  destruct (Char.is_space d) eqn:Hd.
  - rewrite (eqb_space c d) by done. cbn [Str.collapse]. rewrite Hd.
    destruct b'.
    + rewrite Hb by done. by apply IH.
    + cbn [Str.remove]. rewrite (eqb_space c " ") by done.
      cbn [Str.collapse]. change (Char.is_space " ") with true. cbv iota.
      destruct b; by rewrite IH.
  - cbn [Str.remove]. destruct (Char.eqb c d).
    + by apply IH.
    + cbn [Str.collapse]. rewrite Hd. by rewrite IH.
Qed.

(** *** What holds of every result *)

Lemma blank_if_space_collapse (s : string) (b : bool) :
  Str.forallb Char.blank_if_space (Str.collapse b s) = true.
Proof.
  revert b. induction s as [|c s IH]; intros b; [done|]. simpl.
  destruct (Char.is_space c) eqn:Hc.
  - destruct b; [apply IH|]. simpl. apply IH.
  - simpl. unfold Char.blank_if_space at 1. rewrite Hc. simpl. apply IH.
Qed.

(** A string whose white space is single blanks is its own collapsed
    form. *)
Lemma match_here_two_blanks (a b : ascii) (pv : option ascii) (s : string) :
  match_here (Lit "  ") pv (String a (String b s))
  = if Char.eqb " " a then (if Char.eqb " " b then Some (s, []) else None)
    else None.
Proof. unfold match_here. simpl. by destruct (Char.eqb " " a). Qed.

Lemma blank_is_space (c : ascii) :
  Char.blank_if_space c = true → Char.is_space c = true → c = " "%char.
Proof.
  unfold Char.blank_if_space. intros H Hs. rewrite Hs in H. simpl in H.
  by apply char_eqb_eq in H.
Qed.

Lemma collapse_fixed (s : string) :
  Str.forallb Char.blank_if_space s = true →
  ∀ pv, scan (Lit "  ") pv s 0 = [] → Str.collapse false s = s.
Proof.
  induction s as [|c s IH]; [done|].
  intros [Hc Hs]%andb_true_iff pv Hscan.
  cbn [scan] in Hscan.
  destruct (match_here (Lit "  ") pv (String c s)) as [[rest cs]|] eqn:Hm;
    [done|].
  specialize (IH Hs _ Hscan). cbn [Str.collapse].
  destruct (Char.is_space c) eqn:Hsp; [|by rewrite IH].
  rewrite (blank_is_space c Hc Hsp) in *. f_equal.
  destruct s as [|d s]; [done|].
  rewrite match_here_two_blanks in Hm. simpl in Hm.
  cbn [Str.collapse] in IH |- *.
  destruct (Char.is_space d) eqn:Hd; [|done].
  simpl in Hs. apply andb_true_iff in Hs as [Hd' _].
  rewrite (blank_is_space d Hd' Hd) in Hm. done.
Qed.

Lemma search_false (r : regex) (s : string) :
  search r s = false → scan r None s 0 = [].
Proof. unfold search, finditer. by destruct (scan r None s 0). Qed.

(** The properties of every result of the structural normalizer. *)
Lemma structural_normal_form (s : string) :
  let t := Structural.normalize_sql s in
  Str.forallb Char.lowered t = true
  ∧ Str.forallb (Char.isnt "`") t = true
  ∧ Str.forallb Char.blank_if_space t = true
  ∧ Str.forallb (Char.isnt ";") t = true
  ∧ Str.strip t = t.
Proof.
  intros t. subst t. rewrite structural_normalize_sql_eq. split_and!.
  - apply forallb_strip, remove_forallb, sub_forallb; [done|].
    apply collapse_forallb; [done|]. apply remove_forallb, lowered_lower.
  - apply forallb_strip, remove_forallb, sub_forallb; [done|].
    apply collapse_forallb; [done|]. apply remove_removes.
  - apply forallb_strip, remove_forallb, sub_forallb; [done|].
    apply blank_if_space_collapse.
  - apply forallb_strip, remove_removes.
  - apply strip_strip.
Qed.

(** The properties of every result of the lexical normalizer. *)
Lemma lexical_normal_form (s : string) :
  let t := Lexical.normalize_sql s in
  Str.forallb Char.lowered t = true
  ∧ Str.forallb (Char.isnt "`") t = true
  ∧ Str.forallb Char.blank_if_space t = true
  ∧ Str.forallb (Char.isnt ";") t = true
  ∧ Str.strip t = t.
Proof.
  intros t. subst t. rewrite lexical_normalize_sql_eq. split_and!.
  - apply forallb_strip, remove_forallb, sub_forallb; [done|].
    apply sub_forallb; [done|].
    apply collapse_forallb; [done|]. apply remove_forallb, lowered_lower.
  - apply forallb_strip, remove_forallb, sub_forallb; [done|].
    apply sub_forallb; [done|].
    apply collapse_forallb; [done|]. apply remove_removes.
  - apply forallb_strip, remove_forallb, sub_forallb; [done|].
    apply sub_forallb; [done|].
    apply blank_if_space_collapse.
  - apply forallb_strip, remove_removes.
  - apply strip_strip.
Qed.

(** C3, as stated, fails: neither normalizer is idempotent.  Of two
    consecutive [as] only the first is removed by one pass; a semicolon
    between two blanks leaves two blanks; and in the lexical normalizer a
    qualifier may appear once another one is removed. *)
Lemma normalize_sql_is_not_idempotent :
  (Structural.normalize_sql "a as as b" = "a as b"
   ∧ Structural.normalize_sql "a as b" = "a b")
  ∧ (Lexical.normalize_sql "a as as b" = "a as b"
     ∧ Lexical.normalize_sql "a as b" = "a b")
  ∧ (Structural.normalize_sql "a ; b" = "a  b"
     ∧ Structural.normalize_sql "a  b" = "a b")
  ∧ (Lexical.normalize_sql "a b..c" = "a .c"
     ∧ Lexical.normalize_sql "a .c" = "c").
Proof. repeat split; vm_compute; reflexivity. Qed.

(** C3, amended: both normalizers give the same result for two strings
    with the same lower case, and for two strings that differ only in their
    runs of white space (that [\s+] collapses to the same string), as for
    "SELECT A" and "select a"; and a result in which none of two
    consecutive blanks, [ as ] and (for the lexical normalizer) a qualifier
    is found is its own normal form. *)
Theorem normalize_sql_insensitive :
  (∀ s1 s2, Str.lower s1 = Str.lower s2 →
     Lexical.normalize_sql s1 = Lexical.normalize_sql s2
     ∧ Structural.normalize_sql s1 = Structural.normalize_sql s2)
  ∧ (∀ s1 s2, sub Pat.spaces " " s1 = sub Pat.spaces " " s2 →
     Lexical.normalize_sql s1 = Lexical.normalize_sql s2
     ∧ Structural.normalize_sql s1 = Structural.normalize_sql s2)
  ∧ Lexical.normalize_sql "SELECT A" = Lexical.normalize_sql "select a"
  ∧ Structural.normalize_sql "SELECT A" = Structural.normalize_sql "select a"
  ∧ (∀ s, search (Lit "  ") (Structural.normalize_sql s) = false →
          search Pat.as_word (Structural.normalize_sql s) = false →
          Structural.normalize_sql (Structural.normalize_sql s)
          = Structural.normalize_sql s)
  ∧ (∀ s, search (Lit "  ") (Lexical.normalize_sql s) = false →
          search Pat.as_word (Lexical.normalize_sql s) = false →
          search Pat.qualifier (Lexical.normalize_sql s) = false →
          Lexical.normalize_sql (Lexical.normalize_sql s)
          = Lexical.normalize_sql s).
Proof.
  split_and!.
  - intros s1 s2 Heq.
    unfold Lexical.normalize_sql, Structural.normalize_sql. by rewrite Heq.
  - intros s1 s2 Heq. rewrite !sub_spaces in Heq.
    assert (Hpre : Str.collapse false (Str.remove "`" (Str.lower s1))
                   = Str.collapse false (Str.remove "`" (Str.lower s2))).
    { rewrite <- (collapse_remove_collapse "`" (Str.lower s1) eq_refl
                    false false) by done.
      rewrite <- (collapse_remove_collapse "`" (Str.lower s2) eq_refl
                    false false) by done.
      by rewrite !collapse_lower, Heq. }
    rewrite !lexical_normalize_sql_eq, !structural_normalize_sql_eq.
    by rewrite Hpre.
  - vm_compute. reflexivity.
  - vm_compute. reflexivity.
  - intros s Hblanks Has.
    destruct (structural_normal_form s) as (Hlow & Hbt & Hsp & Hsemi & Hstrip).
    set (t := Structural.normalize_sql s) in *.
    rewrite structural_normalize_sql_eq.
    rewrite lower_lowered by done.
    rewrite (remove_absent "`" t) by done.
    rewrite (collapse_fixed t Hsp None) by (by apply search_false).
    rewrite sub_not_found by done.
    rewrite (remove_absent ";" t) by done.
    done.
  - intros s Hblanks Has Hqual.
    destruct (lexical_normal_form s) as (Hlow & Hbt & Hsp & Hsemi & Hstrip).
    set (t := Lexical.normalize_sql s) in *.
    rewrite lexical_normalize_sql_eq.
    rewrite lower_lowered by done.
    rewrite (remove_absent "`" t) by done.
    rewrite (collapse_fixed t Hsp None) by (by apply search_false).
    rewrite (sub_not_found Pat.as_word " " t) by done.
    rewrite (sub_not_found Pat.qualifier "" t) by done.
    rewrite (remove_absent ";" t) by done.
    done.
Qed.

(** The hypotheses of the last two parts of [normalize_sql_insensitive]
    hold, for instance, of a plain query. *)
Lemma normalize_sql_insensitive_witness :
  Structural.normalize_sql
    (Structural.normalize_sql "SELECT  t.a AS x FROM `t`;")
  = Structural.normalize_sql "SELECT  t.a AS x FROM `t`;"
  ∧ Lexical.normalize_sql (Lexical.normalize_sql "SELECT  t.a AS x FROM `t`;")
    = Lexical.normalize_sql "SELECT  t.a AS x FROM `t`;".
Proof.
  destruct normalize_sql_insensitive as (_ & _ & _ & _ & Hs & Hl).
  split.
  - apply Hs; vm_compute; reflexivity.
  - apply Hl; vm_compute; reflexivity.
Defined.

End Normalizers.

(** * Further properties of the evaluators *)

(** ** Quotients *)

Section Quotients.

(** Two results that are equal hold the same number. *)
Lemma Ok_inj (x y : Qc) : Py.Ok x = Py.Ok y → x = y.
Proof.
  intros H.
  exact (f_equal (fun r => match r with Py.Ok q => q | Py.Raise _ => x end) H).
Qed.

Lemma of_nat_inj (a b : nat) : Py.of_nat a = Py.of_nat b → a = b.
Proof. unfold Py.of_nat. intros H%Z2Qc_inj. lia. Qed.

Lemma Qcdiv_eq_1 (x y : Qc) : y ≠ 0%Qc → (x / y)%Qc = 1%Qc → x = y.
Proof.
  intros Hy H. rewrite <- (Qcmult_1_l y), <- H.
  unfold Qcdiv. rewrite <- Qcmult_assoc, (Qcmult_comm (/ y)).
  rewrite Qcmult_inv_r by done. by rewrite Qcmult_1_r.
Qed.

Lemma Qcminus_1_eq_0 (x : Qc) : (1 - x)%Qc = 0%Qc → x = 1%Qc.
Proof.
  intros H. rewrite <- (Qcplus_0_l x), <- H. ring.
Qed.

Lemma Qcminus_1_eq_1 (x : Qc) : (1 - x)%Qc = 1%Qc → x = 0%Qc.
Proof.
  intros H. assert (E : (1 - (1 - x))%Qc = x) by ring.
  rewrite <- E, H. ring.
Qed.

(** The complement to 1 of a number of [0,1] is a number of [0,1]. *)
Lemma complement_unit (x : Qc) : (0 ≤ x ≤ 1)%Qc → (0 ≤ 1 - x ≤ 1)%Qc.
Proof.
  intros [H0 H1]. split.
  - apply (Qcplus_le_mono_r _ _ x). rewrite Qcplus_0_l.
    by replace (1 - x + x)%Qc with 1%Qc by ring.
  - apply (Qcplus_le_mono_r _ _ x).
    replace (1 - x + x)%Qc with (1 + 0)%Qc by ring.
    by apply Qcplus_le_mono_l.
Qed.

Lemma ratio_eq_1 (a b : nat) :
  b ≠ 0 → (Py.of_nat a / Py.of_nat b)%Qc = 1%Qc → a = b.
Proof.
  intros Hb H. apply of_nat_inj, Qcdiv_eq_1; [|done]. by rewrite of_nat_eq_0.
Qed.

Lemma ratio_eq_0 (a b : nat) :
  b ≠ 0 → (Py.of_nat a / Py.of_nat b)%Qc = 0%Qc → a = 0.
Proof.
  intros Hb H. apply of_nat_eq_0.
  assert (Hb' : Py.of_nat b ≠ 0%Qc) by (by rewrite of_nat_eq_0).
  rewrite <- (Qcmult_1_r (Py.of_nat a)), <- (Qcmult_inv_r (Py.of_nat b)) by done.
  rewrite (Qcmult_comm (Py.of_nat b)), Qcmult_assoc.
  change (Py.of_nat a * / Py.of_nat b)%Qc with (Py.of_nat a / Py.of_nat b)%Qc.
  rewrite H. ring.
Qed.

End Quotients.

(** ** The semantic metrics on sets of rows *)

Section SemanticSets.
Import Semantic.

Implicit Types g h : list row.

Lemma none_or_empty_some g :
  none_or_empty (Some g) = true ↔ (list_to_set g : gset row) = ∅.
Proof.
  destruct g as [|r g]; simpl; [done|]. split; [done|].
  intros H. exfalso. apply (not_elem_of_empty (C:=gset row) r).
  rewrite <- H. set_solver.
Qed.

Lemma none_or_empty_set g g' :
  (list_to_set g : gset row) = list_to_set g' →
  none_or_empty (Some g) = none_or_empty (Some g').
Proof.
  intros H. apply eq_true_iff_eq. by rewrite !none_or_empty_some, H.
Qed.

(** The partial accuracy of two successful executions in terms of their
    sets of rows. *)
Lemma partial_execution_accuracy_sets g h :
  partial_execution_accuracy (Some g) (Some h)
  = if decide ((list_to_set g : gset row) = ∅)
    then Py.Ok (if decide ((list_to_set h : gset row) = ∅) then 1%Qc else 0%Qc)
    else Py.Ok (Py.of_nat (size (list_to_set g ∩ list_to_set h : gset row))
                / Py.of_nat (size (list_to_set g : gset row)))%Qc.
Proof.
  unfold partial_execution_accuracy.
  destruct (none_or_empty (Some g)) eqn:Hg.
  - apply none_or_empty_some in Hg. rewrite decide_True by done.
    destruct (none_or_empty (Some h)) eqn:Hh.
    + apply none_or_empty_some in Hh. by rewrite decide_True.
    + rewrite decide_False; [done|]. intros Hh'.
      apply none_or_empty_some in Hh'. congruence.
  - assert (Hg' : (list_to_set g : gset row) ≠ ∅).
    { intros Hg'. apply none_or_empty_some in Hg'. congruence. }
    rewrite decide_False by done.
    apply truediv_nat_ok. by apply gset_size_non_empty.
Qed.

(** The distance of two successful executions in terms of their sets of
    rows: the test [union > 0] never fails. *)
Lemma execution_result_distance_sets g h :
  execution_result_distance (Some g) (Some h)
  = if decide ((list_to_set g : gset row) = ∅ ∧ (list_to_set h : gset row) = ∅)
    then Py.Ok 0%Qc
    else Py.Ok (1 - Py.of_nat (size (list_to_set g ∩ list_to_set h : gset row))
                    / Py.of_nat (size (list_to_set g ∪ list_to_set h : gset row)))%Qc.
Proof.
  unfold execution_result_distance.
  set (A := list_to_set g : gset row). set (B := list_to_set h : gset row).
  destruct (decide (A = ∅ ∧ B = ∅)) as [[HA HB]|Hne].
  - by rewrite !bool_decide_eq_true_2.
  - assert (Hb : bool_decide (A = ∅) && bool_decide (B = ∅) = false).
    { apply andb_false_iff. rewrite !bool_decide_eq_false.
      destruct (decide (A = ∅)); [right|left]; tauto. }
    rewrite Hb.
    assert (HU : size (A ∪ B) ≠ 0).
    { apply gset_size_non_empty. intros HU. apply Hne.
      split; apply set_eq; intros e; set_solver. }
    replace (0 <? size (A ∪ B))%nat with true
      by (symmetry; apply Nat.ltb_lt; lia).
    by rewrite truediv_nat_ok.
Qed.

Lemma inter_le_union (A B : gset row) : (size (A ∩ B) ≤ size (A ∪ B))%nat.
Proof. apply subseteq_size. set_solver. Qed.

Lemma inter_size_eq_union (A B : gset row) :
  size (A ∩ B) = size (A ∪ B) → A = B.
Proof.
  intros H.
  assert (E : A ∩ B = A ∪ B).
  { apply set_subseteq_size_eq; [set_solver | lia]. }
  apply set_eq. intros x. split; intros Hx.
  - assert (x ∈ A ∩ B) by (rewrite E; set_solver). set_solver.
  - assert (x ∈ A ∩ B) by (rewrite E; set_solver). set_solver.
Qed.


(** X2: [execution_result_distance] does not depend on which result is the
    golden one. *)
Theorem execution_result_distance_sym (gold gen : exec_result) :
  execution_result_distance gold gen = execution_result_distance gen gold.
Proof.
  destruct gold as [g|], gen as [h|]; try reflexivity.
  rewrite !execution_result_distance_sets.
  rewrite (comm_L (∩) (list_to_set h)), (comm_L (∪) (list_to_set h)).
  repeat case_decide; tauto || done.
Qed.

(** X3: The distance is 0.0 exactly when both executions succeeded and
    returned the same set of rows, whatever their order and repetitions. *)
Theorem execution_result_distance_zero (gold gen : exec_result) :
  execution_result_distance gold gen = Py.Ok 0%Qc
  ↔ ∃ g h, gold = Some g ∧ gen = Some h
           ∧ (list_to_set g : gset row) = list_to_set h.
Proof.
  split.
  - destruct gold as [g|], gen as [h|]; try discriminate.
    rewrite execution_result_distance_sets. intros H.
    exists g, h. split_and!; [done | done |].
    case_decide as Hd; [destruct Hd; congruence|].
    apply Ok_inj, Qcminus_1_eq_0 in H.
    assert (HU : size (list_to_set g ∪ list_to_set h : gset row) ≠ 0).
    { apply gset_size_non_empty. intros HU. apply Hd.
      split; apply set_eq; intros e; set_solver. }
    apply ratio_eq_1 in H; [|done]. by apply inter_size_eq_union.
  - intros (g & h & -> & -> & Heq).
    rewrite execution_result_distance_sets, <- Heq. case_decide as Hd; [done|].
    replace (list_to_set g ∩ list_to_set g : gset row)
      with (list_to_set g : gset row) by set_solver.
    replace (list_to_set g ∪ list_to_set g : gset row)
      with (list_to_set g : gset row) by set_solver.
    rewrite Qcdiv_same; [f_equal; ring|].
    rewrite of_nat_eq_0. apply gset_size_non_empty. tauto.
Qed.


(** X5: An exact match is a full partial match at distance zero. *)
Theorem execution_accuracy_implies (gold gen : exec_result) :
  execution_accuracy gold gen = 1%Z →
  partial_execution_accuracy gold gen = Py.Ok 1%Qc
  ∧ execution_result_distance gold gen = Py.Ok 0%Qc.
Proof.
  intros H. destruct gold as [g|], gen as [h|]; try discriminate.
  simpl in H. case_decide as Heq; [subst h | discriminate]. split.
  - rewrite partial_execution_accuracy_sets. case_decide as Hg; [done|].
    replace (list_to_set g ∩ list_to_set g : gset row)
      with (list_to_set g : gset row) by set_solver.
    rewrite Qcdiv_same; [done|].
    rewrite of_nat_eq_0. by apply gset_size_non_empty.
  - rewrite execution_result_distance_sets. case_decide as Hd; [done|].
    replace (list_to_set g ∩ list_to_set g : gset row)
      with (list_to_set g : gset row) by set_solver.
    replace (list_to_set g ∪ list_to_set g : gset row)
      with (list_to_set g : gset row) by set_solver.
    rewrite Qcdiv_same; [f_equal; ring|].
    rewrite of_nat_eq_0. apply gset_size_non_empty. tauto.
Qed.

Lemma execution_accuracy_implies_witness :
  partial_execution_accuracy (Some [[CInt 1]; [CInt 2]]) (Some [[CInt 1]; [CInt 2]])
  = Py.Ok 1%Qc
  ∧ execution_result_distance (Some [[CInt 1]; [CInt 2]]) (Some [[CInt 1]; [CInt 2]])
    = Py.Ok 0%Qc.
Proof.
  apply (execution_accuracy_implies
           (Some [[CInt 1]; [CInt 2]]) (Some [[CInt 1]; [CInt 2]])).
  reflexivity.
Defined.

(** X6: The partial accuracy and the distance depend on the rows as sets only:
    the order of the rows and their repetitions do not count. *)
Theorem set_metrics_ignore_order (g g' h h' : list row) :
  (list_to_set g : gset row) = list_to_set g' →
  (list_to_set h : gset row) = list_to_set h' →
  partial_execution_accuracy (Some g) (Some h)
  = partial_execution_accuracy (Some g') (Some h')
  ∧ execution_result_distance (Some g) (Some h)
    = execution_result_distance (Some g') (Some h').
Proof.
  intros Hg Hh.
  by rewrite !partial_execution_accuracy_sets,
             !execution_result_distance_sets, Hg, Hh.
Qed.

Lemma set_metrics_ignore_order_witness :
  partial_execution_accuracy (Some [[CInt 1]; [CInt 2]]) (Some [[CInt 2]])
  = partial_execution_accuracy (Some [[CInt 2]; [CInt 1]; [CInt 2]])
                               (Some [[CInt 2]; [CInt 2]])
  ∧ execution_result_distance (Some [[CInt 1]; [CInt 2]]) (Some [[CInt 2]])
    = execution_result_distance (Some [[CInt 2]; [CInt 1]; [CInt 2]])
                                (Some [[CInt 2]; [CInt 2]]).
Proof.
  apply (set_metrics_ignore_order
           [[CInt 1]; [CInt 2]] [[CInt 2]; [CInt 1]; [CInt 2]]
           [[CInt 2]] [[CInt 2]; [CInt 2]]).
  - apply set_eq. intros r. rewrite !elem_of_list_to_set, !list_elem_of_In.
    simpl. tauto.
  - apply set_eq. intros r. rewrite !elem_of_list_to_set, !list_elem_of_In.
    simpl. tauto.
Defined.

End SemanticSets.

(** ** The golden map *)

Section GoldenMap.

(** The golden map of a dataset and one more entry. *)
Lemma corpus_golden_map_snoc (dataset : list Corpus.question)
    (item : Corpus.question) :
  Corpus.golden_map (dataset ++ [item])
  = <[Corpus.question_id item := Corpus.SQL item]> (Corpus.golden_map dataset).
Proof. unfold Corpus.golden_map. by rewrite foldl_app. Qed.

Lemma semantic_golden_map_snoc (dataset : list Semantic.golden)
    (item : Semantic.golden) :
  Semantic.golden_map (dataset ++ [item])
  = <[Semantic.g_question_id item := Semantic.SQL_golden item]>
      (Semantic.golden_map dataset).
Proof. unfold Semantic.golden_map. by rewrite foldl_app. Qed.

(** X7: When a question id occurs more than once in the dataset, the golden
    SQL of its last entry is the one that is used; an id that does not
    occur has no golden SQL.  So it is for the golden map of the lexical
    and structural evaluators and for that of the semantic evaluator and
    of the query extractor. *)
Theorem golden_map_last_wins (qid : Z) :
  (∀ dataset : list Corpus.question,
     Corpus.golden_map dataset !! qid
     = Corpus.SQL
         <$> last (filter (fun item => Corpus.question_id item = qid) dataset))
  ∧ (∀ dataset : list Semantic.golden,
     Semantic.golden_map dataset !! qid
     = Semantic.SQL_golden
         <$> last (filter (fun item => Semantic.g_question_id item = qid) dataset)).
Proof.
  split.
  - induction dataset as [|item dataset IH] using rev_ind; [done|].
    rewrite corpus_golden_map_snoc, filter_app, filter_cons, filter_nil.
    case_decide as Hid.
    + rewrite Hid, lookup_insert_eq. by rewrite last_snoc.
    + rewrite lookup_insert_ne by done. by rewrite app_nil_r.
  - induction dataset as [|item dataset IH] using rev_ind; [done|].
    rewrite semantic_golden_map_snoc, filter_app, filter_cons, filter_nil.
    case_decide as Hid.
    + rewrite Hid, lookup_insert_eq. by rewrite last_snoc.
    + rewrite lookup_insert_ne by done. by rewrite app_nil_r.
Qed.

End GoldenMap.

(** ** The semantic evaluator and the query extractor *)

Section SemanticRun.
Import Semantic.

Variable DB : Type.
Variable execute_query : DB → string → DB * exec_result.

Lemma partial_execution_accuracy_ok (gold gen : exec_result) :
  ∃ q, partial_execution_accuracy gold gen = Py.Ok q.
Proof.
  destruct gold as [g|], gen as [h|].
  - rewrite partial_execution_accuracy_sets. case_decide; eauto.
  - destruct g; simpl; eauto.
  - destruct h; simpl; eauto.
  - simpl; eauto.
Qed.

Lemma execution_result_distance_ok (gold gen : exec_result) :
  ∃ d, execution_result_distance gold gen = Py.Ok d.
Proof.
  destruct gold as [g|], gen as [h|];
    [| by exists 1%Qc | by exists 1%Qc | by exists 1%Qc].
  rewrite execution_result_distance_sets. case_decide; eauto.
Qed.

(** One pair never raises: its record holds the id and an accuracy that is
    0 or 1. *)
Lemma evaluate_pair_ok (db : DB) (qid : Z) (sql_golden sql_gen : string) :
  ∃ db' acc, evaluate_pair DB execute_query db qid sql_golden sql_gen
             = (db', Py.Ok (Record_ qid acc))
             ∧ (acc = 0 ∨ acc = 1)%Z.
Proof.
  unfold evaluate_pair.
  destruct (execute_query db sql_golden) as [db1 gold].
  destruct (execute_query db1 sql_gen) as [db2 gen].
  destruct (partial_execution_accuracy_ok gold gen) as [q ->].
  destruct (execution_result_distance_ok gold gen) as [d ->].
  exists db2, (execution_accuracy gold gen). split; [done|].
  unfold execution_accuracy. destruct gold, gen; auto. case_decide; auto.
Qed.

(** The loop: one record for each generated entry that joins a golden
    entry, in the order of the generated entries. *)
Lemma semantic_collect_ok (gm : gmap Z string)
    (generated : list Corpus.generation) :
  ∀ db results,
    ∃ db' more,
      collect DB execute_query gm generated db results
      = (db', Py.Ok (results ++ more))
      ∧ r_question_id <$> more
        = Corpus.gen_question_id
            <$> filter (fun item => Corpus.joined gm item = true) generated
      ∧ Forall (fun r => r_execution_accuracy r = 0%Z
                         ∨ r_execution_accuracy r = 1%Z) more.
Proof.
  induction generated as [|item generated IH]; intros db results.
  - exists db, []. by rewrite app_nil_r.
  - cbn [collect]. rewrite filter_cons.
    destruct (decide (Corpus.joined gm item = true)) as [Hj|Hj];
      unfold Corpus.joined in Hj;
      destruct (gm !! Corpus.gen_question_id item) as [sql|];
      [| done | apply not_true_is_false in Hj; rewrite Hj; apply IH | apply IH].
    rewrite Hj. cbn [negb].
    destruct (evaluate_pair_ok db (Corpus.gen_question_id item) sql
                (Corpus.SQL_generated item)) as (db1 & acc & -> & Hacc).
    destruct (IH db1 (results ++ [Record_ (Corpus.gen_question_id item) acc]))
      as (db' & more & -> & Hids & Haccs).
    exists db', (Record_ (Corpus.gen_question_id item) acc :: more).
    split_and!.
    + by rewrite <- app_assoc.
    + by rewrite !fmap_cons, Hids.
    + by constructor.
Qed.


(** *** The query extractor *)

Lemma omap_cons_match {A B : Type} (f : A → option B) (x : A) (l : list A) :
  omap f (x :: l)
  = match f x with Some y => y :: omap f l | None => omap f l end.
Proof. reflexivity. Qed.

Lemma omap_ext_elem {A B : Type} (f g : A → option B) (l : list A) :
  (∀ x, x ∈ l → f x = g x) → omap f l = omap g l.
Proof.
  induction l as [|x l IH]; intros Hfg; [done|].
  rewrite !omap_cons_match.
  rewrite (Hfg x) by (by left). rewrite IH; [done|].
  intros y Hy. apply Hfg. by right.
Qed.

Lemma extract_foldl (gm : gmap Z string) (generated : list Corpus.generation) :
  ∀ results,
    foldl (fun results item =>
             match gm !! Corpus.gen_question_id item with
             | Some sql => results ++ [Golden (Corpus.gen_question_id item) sql]
             | None => results
             end) results generated
    = results
      ++ omap (fun item =>
                 match gm !! Corpus.gen_question_id item with
                 | Some sql => Some (Golden (Corpus.gen_question_id item) sql)
                 | None => None
                 end) generated.
Proof.
  induction generated as [|item generated IH]; intros results.
  - by rewrite app_nil_r.
  - cbn [foldl]. rewrite IH, omap_cons_match.
    destruct (gm !! Corpus.gen_question_id item); [|done].
    by rewrite <- app_assoc.
Qed.

Lemma extract_omap (dataset : list golden) (generated : list Corpus.generation) :
  QueryExtractor.extract_matching_golden_queries dataset generated
  = omap (fun item =>
            match golden_map dataset !! Corpus.gen_question_id item with
            | Some sql => Some (Golden (Corpus.gen_question_id item) sql)
            | None => None
            end) generated.
Proof. unfold QueryExtractor.extract_matching_golden_queries. apply extract_foldl. Qed.

(** X9: The extractor keeps, in the order of the generated entries, one entry
    for each generated entry whose id is in the dataset, and gives it the
    golden SQL that the golden map has for that id. *)
Theorem extract_matching_golden_queries_spec (dataset : list golden)
    (generated : list Corpus.generation) :
  g_question_id
    <$> QueryExtractor.extract_matching_golden_queries dataset generated
  = filter (fun qid => is_Some (golden_map dataset !! qid))
           (Corpus.gen_question_id <$> generated)
  ∧ Forall (fun item => golden_map dataset !! g_question_id item
                        = Some (SQL_golden item))
           (QueryExtractor.extract_matching_golden_queries dataset generated).
Proof.
  rewrite extract_omap. split.
  - induction generated as [|item generated IH]; [done|].
    rewrite omap_cons_match, fmap_cons, filter_cons.
    destruct (golden_map dataset !! Corpus.gen_question_id item) eqn:E.
    + rewrite decide_True by eauto. by rewrite fmap_cons, IH.
    + rewrite decide_False by (by intros [? ?]). done.
  - induction generated as [|item generated IH]; [done|].
    rewrite omap_cons_match.
    destruct (golden_map dataset !! Corpus.gen_question_id item) eqn:E;
      [|done].
    by constructor.
Qed.

(** The golden map of the extracted entries: the golden SQL of the dataset
    for the ids of the generated entries, and nothing for the other ids. *)
Lemma extracted_golden_map (dataset : list golden)
    (generated : list Corpus.generation) (qid : Z) :
  golden_map (QueryExtractor.extract_matching_golden_queries dataset generated)
    !! qid
  = if decide (qid ∈ Corpus.gen_question_id <$> generated)
    then golden_map dataset !! qid else None.
Proof.
  rewrite extract_omap.
  induction generated as [|item generated IH] using rev_ind.
  - rewrite decide_False by apply not_elem_of_nil. apply lookup_empty.
  - rewrite omap_app, fmap_app, fmap_cons, fmap_nil, omap_cons_match.
    assert (Hin : ∀ P : Prop,
              (qid ∈ (Corpus.gen_question_id <$> generated)
                     ++ [Corpus.gen_question_id item])
              ↔ qid ∈ Corpus.gen_question_id <$> generated
                ∨ qid = Corpus.gen_question_id item).
    { intros _. by rewrite elem_of_app, list_elem_of_singleton. }
    destruct (golden_map dataset !! Corpus.gen_question_id item) as [sql|] eqn:E.
    + change (omap _ []) with (@nil golden).
      rewrite semantic_golden_map_snoc. cbn [g_question_id SQL_golden].
      destruct (decide (Corpus.gen_question_id item = qid)) as [<-|Hne].
      * rewrite lookup_insert_eq, decide_True; [done|].
        apply (Hin True). by right.
      * rewrite lookup_insert_ne, IH by done.
        destruct (decide (qid ∈ Corpus.gen_question_id <$> generated)) as [Hq|Hq].
        -- rewrite decide_True; [done|]. apply (Hin True). by left.
        -- rewrite decide_False; [done|]. rewrite (Hin True).
           intros [?|?]; [done|]. by subst.
    + change (omap _ []) with (@nil golden). rewrite app_nil_r, IH.
      destruct (decide (qid ∈ Corpus.gen_question_id <$> generated)) as [Hq|Hq].
      * rewrite decide_True; [done|]. apply (Hin True). by left.
      * destruct (decide (qid = Corpus.gen_question_id item)) as [->|Hne].
        -- rewrite decide_True; [done|]. apply (Hin True). by right.
        -- rewrite decide_False; [done|]. rewrite (Hin True). tauto.
Qed.

(** Two golden maps that agree on the ids of the generated entries give
    the same run. *)
Lemma semantic_collect_ext (gm1 gm2 : gmap Z string)
    (generated : list Corpus.generation) :
  (∀ item, item ∈ generated →
           gm1 !! Corpus.gen_question_id item = gm2 !! Corpus.gen_question_id item) →
  ∀ db results,
    collect DB execute_query gm1 generated db results
    = collect DB execute_query gm2 generated db results.
Proof.
  induction generated as [|item generated IH]; intros Hagree db results; [done|].
  cbn [collect]. rewrite (Hagree item) by (by left).
  assert (IH' := IH (fun i Hi => Hagree i (list_elem_of_further _ _ _ Hi))).
  destruct (gm2 !! Corpus.gen_question_id item) as [sql|]; [|apply IH'].
  destruct (negb (Str.truthy sql)); [apply IH'|].
  destruct (evaluate_pair _ _ _ _ _ _) as [db1 [r|e]]; [apply IH' | done].
Qed.

(** X10: The extractor loses nothing that the semantic evaluator uses: the run
    on the extracted golden queries is the run on the whole dataset. *)
Theorem evaluate_semantic_after_extraction (dataset : list golden)
    (generated : list Corpus.generation) (db : DB) :
  evaluate_semantic DB execute_query
    (QueryExtractor.extract_matching_golden_queries dataset generated)
    generated db
  = evaluate_semantic DB execute_query dataset generated db.
Proof.
  unfold evaluate_semantic.
  rewrite (semantic_collect_ext
             (golden_map (QueryExtractor.extract_matching_golden_queries
                            dataset generated))
             (golden_map dataset)); [done|].
  intros item Hitem. rewrite extracted_golden_map.
  rewrite decide_True; [done|]. by apply list_elem_of_fmap_2.
Qed.

(** X11: Extracting again, from what was extracted, changes nothing. *)
Theorem extract_matching_golden_queries_idempotent (dataset : list golden)
    (generated : list Corpus.generation) :
  QueryExtractor.extract_matching_golden_queries
    (QueryExtractor.extract_matching_golden_queries dataset generated) generated
  = QueryExtractor.extract_matching_golden_queries dataset generated.
Proof.
  etransitivity; [apply extract_omap|].
  symmetry. etransitivity; [apply extract_omap|]. symmetry.
  apply omap_ext_elem. intros item Hitem. rewrite extracted_golden_map.
  rewrite decide_True; [done|]. by apply list_elem_of_fmap_2.
Qed.

End SemanticRun.

(** ** The edit distance and the lexical metrics *)

Section EditDistance.
Import Lexical.

Lemma levenshtein_distance_nil_l (b : string) :
  levenshtein_distance "" b = String.length b.
Proof. by destruct b. Qed.

Lemma levenshtein_distance_nil_r (a : string) :
  levenshtein_distance a "" = String.length a.
Proof. by destruct a. Qed.

Lemma levenshtein_distance_cons (x y : ascii) (a b : string) :
  levenshtein_distance (String x a) (String y b)
  = Nat.min (S (levenshtein_distance a (String y b)))
      (Nat.min (S (levenshtein_distance (String x a) b))
         ((if Char.eqb x y then 0 else 1) + levenshtein_distance a b)).
Proof. reflexivity. Qed.

(** The distance is at most the length of the longer string. *)
Lemma levenshtein_distance_le (a : string) :
  ∀ b, (levenshtein_distance a b
        ≤ Nat.max (String.length a) (String.length b))%nat.
Proof.
  induction a as [|x a IHa]; intros b.
  - rewrite levenshtein_distance_nil_l. simpl. lia.
  - destruct b as [|y b].
    + rewrite levenshtein_distance_nil_r. lia.
    + rewrite levenshtein_distance_cons. specialize (IHa b).
      cbn [String.length]. destruct (Char.eqb x y); lia.
Qed.

Lemma char_eqb_sym (x y : ascii) : Char.eqb x y = Char.eqb y x.
Proof. unfold Char.eqb. apply N.eqb_sym. Qed.

(** The distance from [a] to [b] is the distance from [b] to [a]. *)
Lemma levenshtein_distance_sym (a : string) :
  ∀ b, levenshtein_distance a b = levenshtein_distance b a.
Proof.
  induction a as [|x a IHa]; intros b.
  - by rewrite levenshtein_distance_nil_l, levenshtein_distance_nil_r.
  - induction b as [|y b IHb].
    + by rewrite levenshtein_distance_nil_l, levenshtein_distance_nil_r.
    + rewrite !levenshtein_distance_cons.
      rewrite (IHa (String y b)), (IHa b), IHb, (char_eqb_sym y x). lia.
Qed.

(** The distance is zero between a string and itself only. *)
Lemma levenshtein_distance_zero (a : string) :
  ∀ b, levenshtein_distance a b = 0 → a = b.
Proof.
  induction a as [|x a IHa]; intros b.
  - rewrite levenshtein_distance_nil_l. by destruct b.
  - destruct b as [|y b]; [done|].
    rewrite levenshtein_distance_cons. intros H.
    destruct (Char.eqb x y) eqn:E; [|lia].
    apply char_eqb_eq in E. subst y. f_equal. apply IHa. lia.
Qed.

Lemma levenshtein_similarity_some (a b : string) :
  a ≠ "" → b ≠ "" →
  levenshtein_similarity a b
  = Py.Ok (1 - Py.of_nat (levenshtein_distance a b)
               / Py.of_nat (Nat.max (String.length a) (String.length b)))%Qc.
Proof.
  intros Ha Hb. unfold levenshtein_similarity.
  destruct a as [|x a]; [done|]. destruct b as [|y b]; [done|].
  cbn [Str.truthy negb orb].
  rewrite truediv_nat_ok; [done|]. simpl String.length. lia.
Qed.

Lemma levenshtein_similarity_none (a b : string) :
  a = "" ∨ b = "" → levenshtein_similarity a b = Py.Ok 0%Qc.
Proof.
  intros [-> | ->]; unfold levenshtein_similarity; [done|]. by destruct a.
Qed.

Lemma max_length_non_zero (a b : string) :
  a ≠ "" → Nat.max (String.length a) (String.length b) ≠ 0.
Proof. destruct a; [done|]. simpl. lia. Qed.

(** X12: [levenshtein_similarity] never raises and returns a number of
    [0,1]. *)
Theorem levenshtein_similarity_range (a b : string) :
  ∃ q, levenshtein_similarity a b = Py.Ok q ∧ (0 ≤ q ≤ 1)%Qc.
Proof.
  destruct (decide (a = "")) as [Ha|Ha];
    [exists 0%Qc; split; [apply levenshtein_similarity_none; by left | done]|].
  destruct (decide (b = "")) as [Hb|Hb];
    [exists 0%Qc; split; [apply levenshtein_similarity_none; by right | done]|].
  rewrite levenshtein_similarity_some by done.
  eexists. split; [reflexivity|].
  apply complement_unit, ratio_unit;
    [apply levenshtein_distance_le | by apply max_length_non_zero].
Qed.

(** X13: [levenshtein_similarity] gives the same number for (a, b) and for
    (b, a). *)
Theorem levenshtein_similarity_sym (a b : string) :
  levenshtein_similarity a b = levenshtein_similarity b a.
Proof.
  destruct (decide (a = "")) as [Ha|Ha].
  { rewrite !levenshtein_similarity_none; auto. }
  destruct (decide (b = "")) as [Hb|Hb].
  { rewrite !levenshtein_similarity_none; auto. }
  rewrite !levenshtein_similarity_some by done.
  by rewrite levenshtein_distance_sym, Nat.max_comm.
Qed.

(** X14: The similarity is 1.0 for a string that is not empty against itself,
    and for no other pair. *)
Theorem levenshtein_similarity_one (a b : string) :
  levenshtein_similarity a b = Py.Ok 1%Qc ↔ a = b ∧ a ≠ "".
Proof.
  split.
  - intros H. destruct (decide (a = "")) as [Ha|Ha].
    { rewrite levenshtein_similarity_none in H by (by left). discriminate. }
    destruct (decide (b = "")) as [Hb|Hb].
    { rewrite levenshtein_similarity_none in H by (by right). discriminate. }
    rewrite levenshtein_similarity_some in H by done.
    apply Ok_inj, Qcminus_1_eq_1, ratio_eq_0 in H;
      [|by apply max_length_non_zero].
    split; [by apply levenshtein_distance_zero | done].
  - intros [<- Ha]. rewrite levenshtein_similarity_some by done.
    rewrite levenshtein_distance_same, of_nat_0, Qcdiv_0_l. f_equal.
Qed.

(** X15: [lexical_accuracy] never raises and returns a number of [0,1]. *)
Theorem lexical_accuracy_range (golden_sql generated_sql : string) :
  ∃ q, lexical_accuracy golden_sql generated_sql = Py.Ok q ∧ (0 ≤ q ≤ 1)%Qc.
Proof.
  unfold lexical_accuracy. case_decide as HA.
  - exists 0%Qc. by split.
  - rewrite truediv_nat_ok by (by apply gset_size_non_empty).
    eexists. split; [reflexivity|].
    apply ratio_unit; [|by apply gset_size_non_empty].
    apply subseteq_size. set_solver.
Qed.

End EditDistance.

(** ** The join graph *)

Section JoinGraph.
Import Structural.

Lemma has_node_nodes (n : string) (G : Graph.t) :
  Graph.has_node n G = true ↔ n ∈ Graph.nodes G.
Proof.
  unfold Graph.has_node, Graph.nodes. induction G as [|[m nbrs] G IH].
  - simpl. rewrite elem_of_nil. split; [done | tauto].
  - cbn [existsb]. rewrite fmap_cons, elem_of_cons, orb_true_iff, IH.
    simpl. rewrite String.eqb_eq. intuition congruence.
Qed.

Lemma nodes_add_node (n : string) (G : Graph.t) (m : string) :
  m ∈ Graph.nodes (Graph.add_node n G) ↔ m = n ∨ m ∈ Graph.nodes G.
Proof.
  unfold Graph.add_node. destruct (Graph.has_node n G) eqn:E.
  - apply has_node_nodes in E. intuition congruence.
  - unfold Graph.nodes. rewrite fmap_app, elem_of_app, fmap_cons, fmap_nil.
    rewrite list_elem_of_singleton. simpl. tauto.
Qed.

Lemma nodes_link (u v : string) (G : Graph.t) :
  Graph.nodes (Graph.link u v G) = Graph.nodes G.
Proof.
  unfold Graph.nodes. induction G as [|[n nbrs] G IH]; [done|].
  cbn [Graph.link]. destruct (String.eqb n u); [done|].
  by rewrite !fmap_cons, IH.
Qed.

Lemma nodes_add_edge (u v : string) (G : Graph.t) (m : string) :
  m ∈ Graph.nodes (Graph.add_edge u v G) ↔ m = u ∨ m = v ∨ m ∈ Graph.nodes G.
Proof.
  unfold Graph.add_edge. rewrite !nodes_link, !nodes_add_node. tauto.
Qed.

(** An entry of the graph after [link]: an entry of the graph before, as
    it was or, for the node [u], with [v] added. *)
Lemma elem_of_link (u v : string) (G : Graph.t) (n : string)
    (nbrs : list string) :
  (n, nbrs) ∈ Graph.link u v G →
  ∃ nbrs0, (n, nbrs0) ∈ G ∧ (nbrs = nbrs0 ∨ (n = u ∧ nbrs = nbrs0 ++ [v])).
Proof.
  induction G as [|[m ms] G IH]; cbn [Graph.link].
  - by rewrite elem_of_nil.
  - destruct (String.eqb m u) eqn:E.
    + apply String.eqb_eq in E. subst m. rewrite elem_of_cons.
      intros [Heq|Hin].
      * injection Heq as -> ->. exists ms. split; [by left|].
        destruct (existsb (String.eqb v) ms); auto.
      * exists nbrs. split; [by right | by left].
    + rewrite elem_of_cons. intros [Heq|Hin].
      * injection Heq as -> ->. exists ms. split; [by left | by left].
      * destruct (IH Hin) as (nbrs0 & H0 & H1). exists nbrs0.
        split; [by right | done].
Qed.

Lemma simple_empty : Graph.simple Graph.empty.
Proof. intros n nbrs v H. by apply elem_of_nil in H. Qed.

Lemma simple_add_node (n : string) (G : Graph.t) :
  Graph.simple G → Graph.simple (Graph.add_node n G).
Proof.
  intros HG m nbrs v Hin Hv.
  assert (Hcase : (m, nbrs) ∈ G ∨ nbrs = []).
  { unfold Graph.add_node in Hin. destruct (Graph.has_node n G); [by left|].
    rewrite elem_of_app, list_elem_of_singleton in Hin.
    destruct Hin as [?|Heq]; [by left|]. right. congruence. }
  destruct Hcase as [Hin'| ->]; [|by apply elem_of_nil in Hv].
  destruct (HG m nbrs v Hin' Hv) as [Hne Hnode].
  split; [done|]. apply nodes_add_node. by right.
Qed.

Lemma simple_link (u v : string) (G : Graph.t) :
  v ≠ u → v ∈ Graph.nodes G → Graph.simple G → Graph.simple (Graph.link u v G).
Proof.
  intros Hne Hv HG n nbrs w Hin Hw. rewrite nodes_link.
  destruct (elem_of_link u v G n nbrs Hin) as (nbrs0 & H0 & [-> | [-> ->]]).
  - by apply (HG n nbrs0).
  - rewrite elem_of_app, list_elem_of_singleton in Hw.
    destruct Hw as [Hw| ->]; [by apply (HG u nbrs0) | done].
Qed.

Lemma simple_add_edge (u v : string) (G : Graph.t) :
  u ≠ v → Graph.simple G → Graph.simple (Graph.add_edge u v G).
Proof.
  intros Hne HG. unfold Graph.add_edge.
  apply simple_link; [done | |].
  - rewrite nodes_link, !nodes_add_node. tauto.
  - apply simple_link; [congruence | |].
    + rewrite !nodes_add_node. tauto.
    + by apply simple_add_node, simple_add_node.
Qed.

Lemma foldl_add_node_simple (tables : list string) :
  ∀ G, Graph.simple G →
       Graph.simple (foldl (fun G t => Graph.add_node t G) G tables).
Proof.
  induction tables as [|t tables IH]; intros G HG; [done|].
  simpl. by apply IH, simple_add_node.
Qed.

Lemma foldl_add_node_nodes (tables : list string) :
  ∀ G m, m ∈ Graph.nodes (foldl (fun G t => Graph.add_node t G) G tables)
         ↔ m ∈ tables ∨ m ∈ Graph.nodes G.
Proof.
  induction tables as [|t tables IH]; intros G m.
  - simpl. rewrite elem_of_nil. tauto.
  - cbn [foldl]. rewrite IH, nodes_add_node, elem_of_cons. tauto.
Qed.

Lemma build_graph_fold (table_map : Dict.t) (joins : list (string * string)) :
  ∀ G,
    let G' := foldl (fun G (j : string * string) =>
                       let '(a, b) := j in
                       let real_a := Dict.get a a table_map in
                       let real_b := Dict.get b b table_map in
                       if String.eqb real_a real_b then G
                       else Graph.add_edge real_a real_b G) G joins in
    (Graph.simple G → Graph.simple G')
    ∧ (∀ m, m ∈ Graph.nodes G → m ∈ Graph.nodes G').
Proof.
  induction joins as [|[a b] joins IH]; intros G; [done|].
  cbn [foldl]. destruct (String.eqb _ _) eqn:E; [apply IH|].
  apply String.eqb_neq in E.
  destruct (IH (Graph.add_edge (Dict.get a a table_map)
                               (Dict.get b b table_map) G)) as [IH1 IH2].
  split.
  - intros HG. by apply IH1, simple_add_edge.
  - intros m Hm. apply IH2, nodes_add_edge. tauto.
Qed.

Lemma build_graph_simple (sql : string) : Graph.simple (build_graph sql).
Proof.
  unfold build_graph. apply build_graph_fold.
  apply foldl_add_node_simple, simple_empty.
Qed.

(** An edge is reported from a node to one of its neighbours. *)
Lemma edges_from_elem (seen : list string) (G : Graph.t) (u v : string) :
  (u, v) ∈ Graph.edges_from seen G → ∃ nbrs, (u, nbrs) ∈ G ∧ v ∈ nbrs.
Proof.
  revert seen. induction G as [|[n nbrs] G IH]; intros seen; simpl.
  - by rewrite elem_of_nil.
  - rewrite elem_of_app, list_elem_of_fmap. intros [[nbr [Heq Hin]]|Hin].
    + injection Heq as -> ->. exists nbrs. split; [by left|].
      by apply list_elem_of_filter in Hin as [_ ?].
    + destruct (IH _ Hin) as (nbrs' & H1 & H2). exists nbrs'.
      split; [by right | done].
Qed.

(** X16: The join graph is a simple undirected graph: an edge joins two
    different tables, both of them nodes of the graph, and it is reported
    once, in one orientation; a self-join gives no edge. *)
Theorem build_graph_edges (sql : string) (u v : string) :
  (u, v) ∈ Graph.edges (build_graph sql) →
  u ≠ v
  ∧ u ∈ Graph.nodes (build_graph sql)
  ∧ v ∈ Graph.nodes (build_graph sql)
  ∧ (v, u) ∉ Graph.edges (build_graph sql).
Proof.
  intros Huv.
  destruct (edges_from_elem _ _ _ _ Huv) as (nbrs & Hin & Hv).
  destruct (build_graph_simple sql u nbrs v Hin Hv) as [Hne Hnode].
  split_and!; [congruence | | done |].
  - unfold Graph.nodes. apply list_elem_of_fmap. by exists (u, nbrs).
  - intros Hvu. apply Hne. symmetry.
    by apply (edges_from_one_orientation [] (build_graph sql)).
Qed.

Lemma build_graph_edges_witness :
  "a" ≠ "b"
  ∧ "a" ∈ Graph.nodes (build_graph "select x from a join b on a.id = b.id")
  ∧ "b" ∈ Graph.nodes (build_graph "select x from a join b on a.id = b.id")
  ∧ ("b", "a") ∉ Graph.edges (build_graph "select x from a join b on a.id = b.id").
Proof.
  apply (build_graph_edges "select x from a join b on a.id = b.id" "a" "b").
  rewrite edges_a_join_b. by left.
Defined.

(** X17: Every table that [extract_tables] finds is a node of the join
    graph. *)
Theorem build_graph_tables (sql : string) (table : string) :
  table ∈ Dict.values (extract_tables sql) →
  table ∈ Graph.nodes (build_graph sql).
Proof.
  intros Ht. unfold build_graph. apply build_graph_fold.
  apply foldl_add_node_nodes. by left.
Qed.

Lemma build_graph_tables_witness :
  "b" ∈ Graph.nodes (build_graph "select x from a join b on a.id = b.id").
Proof.
  apply (build_graph_tables "select x from a join b on a.id = b.id" "b").
  vm_compute. apply list_elem_of_In. simpl. tauto.
Defined.

(** *** Graph similarity *)

Lemma graph_similarity_edges_sym (E1 E2 : edge_set) :
  snd (graph_similarity_edges E1 E2) = snd (graph_similarity_edges E2 E1).
Proof.
  destruct (decide (E1 = ∅ ∧ E2 = ∅)) as [[-> ->]|Hne]; [done|].
  rewrite !graph_similarity_edges_jaccard by tauto. simpl.
  by rewrite (comm_L (∩) E2), (comm_L (∪) E2).
Qed.

(** X18: [graph_similarity] gives the same number for (sql1, sql2) and for
    (sql2, sql1). *)
Theorem graph_similarity_sym (sql1 sql2 : string) :
  graph_similarity sql1 sql2 = graph_similarity sql2 sql1.
Proof. unfold graph_similarity. apply graph_similarity_edges_sym. Qed.

(** X19: A query against itself has graph similarity 1.0, with or without
    joins. *)
Theorem graph_similarity_same (sql : string) :
  graph_similarity sql sql = Py.Ok 1%Qc.
Proof.
  unfold graph_similarity.
  destruct (decide (edges_of sql = ∅)) as [->|Hne]; [done|].
  rewrite graph_similarity_edges_jaccard by tauto. simpl.
  replace (edges_of sql ∩ edges_of sql) with (edges_of sql) by set_solver.
  replace (edges_of sql ∪ edges_of sql) with (edges_of sql) by set_solver.
  rewrite Qcdiv_same, round4_1; [done|].
  rewrite of_nat_eq_0. by apply gset_size_non_empty.
Qed.

(** X20: [join_correctness] never raises and returns a number of [0,1]; when
    the golden query has no join pair, it is 1.0 if the generated query
    has none either, and 0.0 otherwise. *)
Theorem join_correctness_range (sql1 sql2 : string) :
  (∃ q, join_correctness sql1 sql2 = Py.Ok q ∧ (0 ≤ q ≤ 1)%Qc)
  ∧ (extract_joins sql1 = [] → extract_joins sql2 = [] →
     join_correctness sql1 sql2 = Py.Ok 1%Qc)
  ∧ (extract_joins sql1 = [] → extract_joins sql2 ≠ [] →
     join_correctness sql1 sql2 = Py.Ok 0%Qc).
Proof.
  split_and!.
  - destruct (extract_joins sql1) as [|j joins1] eqn:E1.
    + unfold join_correctness. rewrite E1.
      destruct (extract_joins sql2); [exists 1%Qc | exists 0%Qc]; by split.
    + exists 0%Qc. split; [|done]. apply join_correctness_zero. by rewrite E1.
  - intros E1 E2. unfold join_correctness. by rewrite E1, E2.
  - intros E1 E2. unfold join_correctness. rewrite E1.
    by destruct (extract_joins sql2).
Qed.

End JoinGraph.

(** ** What a match consumes *)

Section Consumption.
Import Re.

Lemma str_app_cons (c : ascii) (s t : string) :
  String c s +:+ t = String c (s +:+ t).
Proof. reflexivity. Qed.

Lemma str_app_assoc (s t u : string) : (s +:+ t) +:+ u = s +:+ (t +:+ u).
Proof. induction s as [|c s IH]; [done|]. by rewrite !str_app_cons, IH. Qed.

Lemma str_app_nil_r (s : string) : s +:+ "" = s.
Proof. induction s as [|c s IH]; [done|]. by rewrite str_app_cons, IH. Qed.

Lemma str_length_app (s t : string) :
  String.length (s +:+ t) = String.length s + String.length t.
Proof.
  induction s as [|c s IH]; [done|]. rewrite str_app_cons. simpl. by rewrite IH.
Qed.

Lemma forallb_impl (p q : ascii → bool) (s : string) :
  (∀ d, q d = true → p d = true) →
  Str.forallb q s = true → Str.forallb p s = true.
Proof.
  intros Hqp. induction s as [|c s IH]; [done|]. simpl.
  intros [Hc Hs]%andb_true_iff. by rewrite (Hqp c Hc), IH.
Qed.

Lemma take_app (u s : string) : Str.take (String.length u) (u +:+ s) = u.
Proof.
  induction u as [|c u IH]; [by destruct s|].
  rewrite str_app_cons. simpl. by rewrite IH.
Qed.

(** A repetition that succeeds consumed characters of its class, at least
    [lo] of them, before the rest of the pattern succeeded. *)
Lemma rep_greedy_consumes (q : ascii → bool) (k : cont) (a : answer)
    (s : string) :
  ∀ lo pv cs,
    rep_greedy q lo pv s cs k = Some a →
    ∃ u s' pv' cs',
      s = u +:+ s' ∧ Str.forallb q u = true ∧ (lo ≤ String.length u)%nat
      ∧ k pv' s' cs' = Some a.
Proof.
  induction s as [|c s IH]; intros lo pv cs H.
  - simpl in H. destruct lo; [|done]. by exists "", "", pv, cs.
  - cbn [rep_greedy] in H.
    assert (Hstop : match lo with 0 => k pv (String c s) cs | S _ => None end
                    = Some a →
                    ∃ u s' pv' cs',
                      String c s = u +:+ s' ∧ Str.forallb q u = true
                      ∧ (lo ≤ String.length u)%nat ∧ k pv' s' cs' = Some a).
    { intros Hs. destruct lo; [|done]. by exists "", (String c s), pv, cs. }
    destruct (q c) eqn:Hc; [|by apply Hstop].
    destruct (rep_greedy q (Nat.pred lo) (Some c) s cs k) as [a'|] eqn:Hrec;
      [|by apply Hstop].
    injection H as ->.
    destruct (IH _ _ _ Hrec) as (u & s' & pv' & cs' & -> & Hu & Hlo & Hk).
    exists (String c u), s', pv', cs'. simpl. rewrite Hc, Hu.
    split_and!; [done | done | lia | done].
Qed.

Lemma rep_lazy_consumes (q : ascii → bool) (k : cont) (a : answer)
    (s : string) :
  ∀ lo pv cs,
    rep_lazy q lo pv s cs k = Some a →
    ∃ u s' pv' cs',
      s = u +:+ s' ∧ Str.forallb q u = true ∧ (lo ≤ String.length u)%nat
      ∧ k pv' s' cs' = Some a.
Proof.
  induction s as [|c s IH]; intros lo pv cs H.
  - destruct lo; simpl in H; [|done].
    destruct (k pv "" cs) eqn:Hk; [|done]. injection H as ->.
    by exists "", "", pv, cs.
  - destruct lo as [|lo].
    + cbn [rep_lazy] in H.
      destruct (k pv (String c s) cs) as [a'|] eqn:Hk.
      * injection H as ->. by exists "", (String c s), pv, cs.
      * destruct (q c) eqn:Hc; [|done].
        destruct (IH _ _ _ H) as (u & s' & pv' & cs' & -> & Hu & Hlo & Hk').
        exists (String c u), s', pv', cs'. simpl. rewrite Hc, Hu.
        split_and!; [done | done | lia | done].
    + cbn [rep_lazy] in H. destruct (q c) eqn:Hc; [|done].
      destruct (IH _ _ _ H) as (u & s' & pv' & cs' & -> & Hu & Hlo & Hk').
      exists (String c u), s', pv', cs'. simpl in *. rewrite Hc, Hu.
      split_and!; [done | done | lia | done].
Qed.

(** A pattern that succeeds consumed a prefix [u] of the input before its
    continuation succeeded on the rest: the characters of [u] are of the
    classes of the pattern, and [u] is at least as long as the shortest
    match of the pattern. *)
Lemma run_consumes (p : ascii → bool) (r : regex) :
  within p r →
  ∀ k pv s cs a,
    run r pv s cs k = Some a →
    ∃ u s' pv' cs',
      s = u +:+ s' ∧ Str.forallb p u = true
      ∧ (min_len r ≤ String.length u)%nat ∧ k pv' s' cs' = Some a.
Proof.
  induction r as [|c|q|r1 IH1 r2 IH2|r1 IH1 r2 IH2|greedy lo q|r1 IH1|n r1 IH1| |];
    intros Hw k pv s cs a H; cbn [run min_len] in *.
  - by exists "", s, pv, cs.
  - destruct s as [|d s]; [done|]. destruct (Char.eqb c d) eqn:E; [|done].
    apply char_eqb_eq in E. subst d.
    exists (String c ""), s, (Some c), cs. simpl in *. by rewrite Hw.
  - destruct s as [|d s]; [done|]. destruct (q d) eqn:E; [|done].
    exists (String d ""), s, (Some d), cs. simpl in *. by rewrite (Hw d E).
  - destruct Hw as [Hw1 Hw2].
    destruct (IH1 Hw1 _ _ _ _ _ H) as (u1 & s1 & pv1 & cs1 & -> & Hu1 & Hl1 & H1).
    destruct (IH2 Hw2 _ _ _ _ _ H1) as (u2 & s2 & pv2 & cs2 & -> & Hu2 & Hl2 & H2).
    exists (u1 +:+ u2), s2, pv2, cs2.
    rewrite str_app_assoc, forallb_app, Hu1, Hu2, str_length_app.
    split_and!; [done | done | lia | done].
  - destruct Hw as [Hw1 Hw2].
    destruct (run r1 pv s cs k) as [a1|] eqn:E1.
    + injection H as ->.
      destruct (IH1 Hw1 _ _ _ _ _ E1) as (u & s' & pv' & cs' & -> & Hu & Hl & Hk).
      exists u, s', pv', cs'. split_and!; [done | done | lia | done].
    + destruct (IH2 Hw2 _ _ _ _ _ H) as (u & s' & pv' & cs' & -> & Hu & Hl & Hk).
      exists u, s', pv', cs'. split_and!; [done | done | lia | done].
  - assert (Hrep : ∃ u s' pv' cs',
              s = u +:+ s' ∧ Str.forallb q u = true
              ∧ (lo ≤ String.length u)%nat ∧ k pv' s' cs' = Some a).
    { destruct greedy; [by eapply rep_greedy_consumes
                       | by eapply rep_lazy_consumes]. }
    destruct Hrep as (u & s' & pv' & cs' & -> & Hu & Hl & Hk).
    exists u, s', pv', cs'. split_and!; [done | | done | done].
    by apply (forallb_impl p q).
  - destruct (run r1 pv s cs k) as [a1|] eqn:E1.
    + injection H as ->.
      destruct (IH1 Hw _ _ _ _ _ E1) as (u & s' & pv' & cs' & -> & Hu & Hl & Hk).
      exists u, s', pv', cs'. split_and!; [done | done | lia | done].
    + exists "", s, pv, cs. split_and!; [done | done | lia | done].
  - destruct (IH1 Hw _ _ _ _ _ H) as (u & s' & pv' & cs' & -> & Hu & Hl & Hk).
    eexists u, s', pv', _. split_and!; [done | done | done | exact Hk].
  - destruct (xorb _ _); [|done]. by exists "", s, pv, cs.
  - destruct (at_eos s); [|done]. by exists "", s, pv, cs.
Qed.

(** A match that starts here: the input is the text of the match and the
    rest. *)
Lemma match_here_consumes (p : ascii → bool) (r : regex) (pv : option ascii)
    (s rest : string) (cs : caps) :
  within p r →
  match_here r pv s = Some (rest, cs) →
  ∃ u, s = u +:+ rest ∧ Str.forallb p u = true
       ∧ (min_len r ≤ String.length u)%nat
       ∧ Str.take (String.length s - String.length rest) s = u.
Proof.
  intros Hw H. unfold match_here in H.
  destruct (run_consumes p r Hw _ _ _ _ _ H)
    as (u & s' & pv' & cs' & -> & Hu & Hl & Hk).
  unfold accept in Hk. injection Hk as -> ->.
  exists u. split_and!; [done | done | done |].
  rewrite str_length_app.
  replace (String.length u + String.length rest - String.length rest)%nat
    with (String.length u) by lia.
  apply take_app.
Qed.

(** *** Substitution does not lengthen *)

(** When every match is at least as long as the replacement, and not
    empty, the result is at most as long as the input. *)
Lemma sub_from_length (r : regex) (repl : string) :
  within (fun _ => true) r →
  (1 ≤ min_len r)%nat → (String.length repl ≤ min_len r)%nat →
  ∀ s pv skip,
    (skip ≤ String.length s)%nat →
    (String.length (sub_from r repl pv s skip) + skip ≤ String.length s)%nat.
Proof.
  intros Hw Hmin Hrepl. induction s as [|c s IH]; intros pv skip Hskip.
  - simpl in Hskip. assert (skip = 0) as -> by lia. simpl.
    destruct (match_here r pv "") as [[rest cs]|] eqn:Hm; [|simpl; lia].
    destruct (match_here_consumes _ _ _ _ _ _ Hw Hm) as (u & Hu & _ & Hl & _).
    destruct u; [simpl in Hl; lia | done].
  - destruct skip as [|n].
    + rewrite sub_from_cons_0.
      destruct (match_here r pv (String c s)) as [[rest cs]|] eqn:Hm.
      * destruct (match_here_consumes _ _ _ _ _ _ Hw Hm)
          as (u & Hu & _ & Hl & _).
        rewrite Hu, str_length_app.
        replace (String.length u + String.length rest - String.length rest)%nat
          with (String.length u) by lia.
        destruct (String.length u) as [|n] eqn:Hlen; [lia|].
        assert (Hs : String.length (String c s) = S n + String.length rest).
        { by rewrite Hu, str_length_app, Hlen. }
        simpl in Hs.
        specialize (IH (Some c) n ltac:(lia)).
        rewrite str_length_app. lia.
      * specialize (IH (Some c) 0 ltac:(lia)). simpl. lia.
    + rewrite sub_from_cons_S. simpl in Hskip.
      specialize (IH (Some c) n ltac:(lia)). simpl. lia.
Qed.

Lemma sub_length (r : regex) (repl s : string) :
  within (fun _ => true) r →
  (1 ≤ min_len r)%nat → (String.length repl ≤ min_len r)%nat →
  (String.length (sub r repl s) ≤ String.length s)%nat.
Proof.
  intros Hw Hmin Hrepl.
  pose proof (sub_from_length r repl Hw Hmin Hrepl s None 0 ltac:(lia)).
  unfold sub. lia.
Qed.

Lemma length_lower (s : string) : String.length (Str.lower s) = String.length s.
Proof.
  unfold Str.lower. induction s as [|c s IH]; [done|]. simpl. by rewrite IH.
Qed.

Lemma length_rstrip (s : string) :
  (String.length (Str.rstrip s) ≤ String.length s)%nat.
Proof.
  induction s as [|c s IH]; [done|]. simpl.
  destruct (Str.rstrip s); [destruct (Char.is_space c)|]; simpl in *; lia.
Qed.

Lemma length_strip (s : string) :
  (String.length (Str.strip s) ≤ String.length s)%nat.
Proof.
  unfold Str.strip. pose proof (length_rstrip (Str.lstrip s)).
  pose proof (length_lstrip s). lia.
Qed.

Lemma within_any (r : regex) : within (fun _ => true) r.
Proof. induction r; simpl; auto. Qed.

(** X21: Neither normalizer lengthens a string: each substitution puts a
    text in the place of a match that is not shorter, and [str.lower] keeps
    the length of a string of code points below 256. *)
Theorem normalize_sql_length (s : string) :
  (String.length (Lexical.normalize_sql s) ≤ String.length s)%nat
  ∧ (String.length (Structural.normalize_sql s) ≤ String.length s)%nat.
Proof.
  assert (Hb : ∀ t, (String.length (sub Pat.backtick "" t) ≤ String.length t)%nat)
    by (intros t; apply sub_length; [apply within_any | simpl; lia ..]).
  assert (Hsp : ∀ t, (String.length (sub Pat.spaces " " t) ≤ String.length t)%nat)
    by (intros t; apply sub_length; [apply within_any | simpl; lia ..]).
  assert (Has : ∀ t, (String.length (sub Pat.as_word " " t) ≤ String.length t)%nat)
    by (intros t; apply sub_length; [apply within_any | simpl; lia ..]).
  assert (Hq : ∀ t, (String.length (sub Pat.qualifier "" t) ≤ String.length t)%nat)
    by (intros t; apply sub_length; [apply within_any | simpl; lia ..]).
  assert (Hsc : ∀ t, (String.length (sub Pat.semicolon "" t) ≤ String.length t)%nat)
    by (intros t; apply sub_length; [apply within_any | simpl; lia ..]).
  unfold Lexical.normalize_sql, Structural.normalize_sql.
  pose proof (length_lower s) as H0.
  set (s0 := Str.lower s) in *.
  pose proof (Hb s0) as H1. set (s1 := sub Pat.backtick "" s0) in *.
  pose proof (Hsp s1) as H2. set (s2 := sub Pat.spaces " " s1) in *.
  pose proof (Has s2) as H3. set (s3 := sub Pat.as_word " " s2) in *.
  pose proof (Hq s3) as H4. pose proof (Hsc (sub Pat.qualifier "" s3)) as H5.
  pose proof (Hsc s3) as H6.
  pose proof (length_strip (sub Pat.semicolon "" (sub Pat.qualifier "" s3))).
  pose proof (length_strip (sub Pat.semicolon "" s3)).
  lia.
Qed.

End Consumption.

(** ** What the extractors find *)

Section Found.
Import Re.

(** The texts that a scan reports: each is made of characters of the
    classes of the pattern, is at least as long as the shortest match, and
    keeps every property that all the characters of the input have. *)
Lemma scan_texts (p q : ascii → bool) (r : regex) :
  within p r →
  ∀ s pv skip,
    Str.forallb q s = true →
    Forall (fun m : found => Str.forallb p (fst m) = true
                             ∧ Str.forallb q (fst m) = true
                             ∧ (min_len r ≤ String.length (fst m))%nat)
           (scan r pv s skip).
Proof.
  intros Hw. induction s as [|c s IH]; intros pv skip Hq.
  - simpl. destruct skip; [|constructor].
    destruct (match_here r pv "") as [[rest cs]|] eqn:Hm; [|constructor].
    destruct (match_here_consumes _ _ _ _ _ _ Hw Hm) as (u & Hu & _ & Hl & _).
    destruct u; [|done]. repeat constructor. simpl in *. lia.
  - cbn [scan]. pose proof Hq as Hq'. simpl in Hq'.
    apply andb_true_iff in Hq' as [_ Hqs].
    destruct skip as [|n]; [|by apply IH].
    destruct (match_here r pv (String c s)) as [[rest cs]|] eqn:Hm;
      [|by apply IH].
    constructor; [|by apply IH].
    destruct (match_here_consumes _ _ _ _ _ _ Hw Hm) as (u & Hu & Hp & Hl & Ht).
    cbn [fst]. rewrite Ht. split_and!; [done | | done].
    rewrite Hu, forallb_app in Hq. by apply andb_true_iff in Hq as [? _].
Qed.

Lemma ident_start_char (c : ascii) :
  Pat.ident_start c = true → Pat.ident_char c = true.
Proof.
  unfold Pat.ident_start, Pat.ident_char.
  rewrite !orb_true_iff. tauto.
Qed.

Lemma lowered_ident_char (c : ascii) :
  Pat.ident_char c = true → Char.lowered c = true → Pat.lower_word c = true.
Proof.
  destruct c as [[] [] [] [] [] [] [] []];
    intros H1 H2; first [reflexivity | discriminate].
Qed.

Lemma within_token : within Pat.ident_char Pat.token.
Proof.
  unfold Pat.token. simpl. split_and!; try done. apply ident_start_char.
Qed.

Lemma forallb_and (p q r : ascii → bool) (s : string) :
  (∀ c, p c = true → q c = true → r c = true) →
  Str.forallb p s = true → Str.forallb q s = true → Str.forallb r s = true.
Proof.
  intros Hpq. induction s as [|c s IH]; [done|]. simpl.
  intros [Hp Hps]%andb_true_iff [Hq Hqs]%andb_true_iff.
  by rewrite (Hpq c Hp Hq), IH.
Qed.

(** X22: An attribute is never a reserved word; it is not empty and it is made
    of lower-case letters, digits and underscores only. *)
Theorem extract_attributes_tokens (sql : string) (t : string) :
  t ∈ Lexical.extract_attributes sql →
  (t ∉ Lexical.reserved) ∧ t ≠ "" ∧ Str.forallb Pat.lower_word t = true.
Proof.
  unfold Lexical.extract_attributes. intros [Hres Hin]%list_elem_of_filter.
  split; [done|].
  unfold findall0, finditer in Hin. apply list_elem_of_fmap in Hin as [m [-> Hm]].
  pose proof (scan_texts Pat.ident_char Char.lowered Pat.token within_token
                (Str.lower sql) None 0 (lowered_lower sql)) as Hall.
  rewrite Forall_forall in Hall. destruct (Hall m Hm) as (Hp & Hq & Hl).
  split.
  - intros E. rewrite E in Hl. simpl in Hl. lia.
  - by apply (forallb_and Pat.ident_char Char.lowered Pat.lower_word
                _ lowered_ident_char).
Qed.

Lemma extract_attributes_tokens_witness :
  ("a" ∉ Lexical.reserved) ∧ "a"%string ≠ ""
  ∧ Str.forallb Pat.lower_word "a" = true.
Proof.
  apply (extract_attributes_tokens "select a from t" "a").
  assert (E : Lexical.extract_attributes "select a from t" = ["a"; "t"])
    by (vm_compute; reflexivity).
  rewrite E. by left.
Defined.

(** *** Queries without a join *)

Lemma lit_cons (c d : ascii) (l : string) :
  Lit (String c (String d l)) = Seq (Chr c) (Lit (String d l)).
Proof. reflexivity. Qed.

(** A literal matches the strings that start with it, and only them. *)
Lemma run_lit (lit : string) :
  ∀ pv s cs k a,
    run (Lit lit) pv s cs k = Some a →
    ∃ rest pv', s = lit +:+ rest ∧ k pv' rest cs = Some a.
Proof.
  induction lit as [|c lit IH]; intros pv s cs k a H.
  - by exists s, pv.
  - destruct lit as [|d lit].
    + simpl in H. destruct s as [|e s]; [done|].
      destruct (Char.eqb c e) eqn:E; [|done]. apply char_eqb_eq in E. subst e.
      by exists s, (Some c).
    + rewrite lit_cons in H. cbn [run] in H. destruct s as [|e s]; [done|].
      destruct (Char.eqb c e) eqn:E; [|done]. apply char_eqb_eq in E. subst e.
      destruct (IH _ _ _ _ _ H) as (rest & pv' & -> & Hk).
      by exists rest, pv'.
Qed.

Lemma run_lit_prefix (lit : string) :
  ∀ pv rest cs k, ∃ pv', run (Lit lit) pv (lit +:+ rest) cs k = k pv' rest cs.
Proof.
  induction lit as [|c lit IH]; intros pv rest cs k.
  - by exists pv.
  - destruct lit as [|d lit].
    + exists (Some c). simpl. by rewrite char_eqb_refl.
    + rewrite lit_cons, str_app_cons. cbn [run]. rewrite char_eqb_refl.
      apply IH.
Qed.

(** A pattern that begins with a literal matches only where the literal
    matches. *)
Lemma match_here_after_lit (lit : string) (r : regex) (pv : option ascii)
    (s : string) :
  match_here (Lit lit) pv s = None → match_here (Seq (Lit lit) r) pv s = None.
Proof.
  intros Hnone. unfold match_here in *. cbn [run].
  destruct (run (Lit lit) pv s [] (fun pv' s' cs' => run r pv' s' cs' accept))
    as [a|] eqn:E; [|done].
  destruct (run_lit _ _ _ _ _ _ E) as (rest & pv' & -> & _).
  destruct (run_lit_prefix lit pv rest [] accept) as [pv'' Hp].
  rewrite Hp in Hnone. done.
Qed.

Lemma scan_none (r1 r2 : regex) :
  (∀ pv s, match_here r1 pv s = None → match_here r2 pv s = None) →
  ∀ s pv, scan r1 pv s 0 = [] → scan r2 pv s 0 = [].
Proof.
  intros H12. induction s as [|c s IH]; intros pv Hscan; simpl in *.
  - destruct (match_here r1 pv "") as [[rest cs]|] eqn:E; [done|].
    by rewrite (H12 _ _ E).
  - destruct (match_here r1 pv (String c s)) as [[rest cs]|] eqn:E; [done|].
    rewrite (H12 _ _ E). by apply IH.
Qed.

(** A query in which the word join does not occur, in whatever case, has
    no join pair. *)
Lemma extract_joins_none (sql : string) :
  search (Lit "join") (Str.lower sql) = false →
  Structural.extract_joins sql = [].
Proof.
  intros Hs. apply search_false in Hs.
  unfold Structural.extract_joins, findall1, finditer.
  rewrite (scan_none (Lit "join") Pat.join_block); [done | | done].
  intros pv s. apply match_here_after_lit.
Qed.

Lemma edges_from_no_neighbour (G : Graph.t) :
  Forall (fun e => e.2 = []) G → ∀ seen, Graph.edges_from seen G = [].
Proof.
  induction 1 as [|[n nbrs] G Hn _ IH]; intros seen; [done|].
  simpl in *. subst nbrs. rewrite filter_nil, fmap_nil. apply IH.
Qed.

Lemma add_node_no_neighbour (n : string) (G : Graph.t) :
  Forall (fun e => e.2 = []) G →
  Forall (fun e => e.2 = []) (Graph.add_node n G).
Proof.
  intros HG. unfold Graph.add_node. destruct (Graph.has_node n G); [done|].
  apply Forall_app. split; [done|]. by repeat constructor.
Qed.

Lemma foldl_add_node_no_neighbour (tables : list string) :
  ∀ G, Forall (fun e => e.2 = []) G →
       Forall (fun e => e.2 = [])
              (foldl (fun G t => Graph.add_node t G) G tables).
Proof.
  induction tables as [|t tables IH]; intros G HG; [done|].
  simpl. by apply IH, add_node_no_neighbour.
Qed.

(** Without a join pair the join graph has no edge. *)
Lemma edges_of_none (sql : string) :
  Structural.extract_joins sql = [] → Structural.edges_of sql = ∅.
Proof.
  intros E. unfold Structural.edges_of, Structural.build_graph. rewrite E.
  cbn [foldl]. unfold Graph.edges.
  rewrite edges_from_no_neighbour; [done|].
  apply foldl_add_node_no_neighbour. constructor.
Qed.

(** X23: Two queries in which the word join does not occur, in whatever case,
    have graph similarity 1.0 and join correctness 1.0. *)
Theorem join_free_queries (sql1 sql2 : string) :
  search (Lit "join") (Str.lower sql1) = false →
  search (Lit "join") (Str.lower sql2) = false →
  Structural.graph_similarity sql1 sql2 = Py.Ok 1%Qc
  ∧ Structural.join_correctness sql1 sql2 = Py.Ok 1%Qc.
Proof.
  intros H1%extract_joins_none H2%extract_joins_none. split.
  - unfold Structural.graph_similarity.
    by rewrite (edges_of_none sql1 H1), (edges_of_none sql2 H2).
  - unfold Structural.join_correctness. by rewrite H1, H2.
Qed.

Lemma join_free_queries_witness :
  Structural.graph_similarity "SELECT a FROM t" "select b from u where c = 1"
  = Py.Ok 1%Qc
  ∧ Structural.join_correctness "SELECT a FROM t" "select b from u where c = 1"
    = Py.Ok 1%Qc.
Proof.
  apply (join_free_queries "SELECT a FROM t" "select b from u where c = 1");
    vm_compute; reflexivity.
Defined.

End Found.

(** ** The reports of the lexical and of the structural evaluator *)

Section Reports.

Variable cosine_similarity_text : string → string → Py.result Qc.
Variable tree_matching_similarity : string → string → Py.result Qc.
Variables alpha beta gamma : Qc.      (* the lexical weights *)
Variables alpha' beta' gamma' : Qc.   (* the structural weights *)

Hypothesis cosine_returns :
  ∀ a b, ∃ q, cosine_similarity_text a b = Py.Ok q.
Hypothesis tree_returns :
  ∀ a b, ∃ q, tree_matching_similarity a b = Py.Ok q.

Lemma levenshtein_similarity_ok (a b : string) :
  ∃ q, Lexical.levenshtein_similarity a b = Py.Ok q.
Proof.
  destruct (decide (a = "")) as [Ha|Ha];
    [exists 0%Qc; apply levenshtein_similarity_none; by left|].
  destruct (decide (b = "")) as [Hb|Hb];
    [exists 0%Qc; apply levenshtein_similarity_none; by right|].
  rewrite levenshtein_similarity_some by done. eauto.
Qed.

Lemma lexical_accuracy_ok (golden_sql generated_sql : string) :
  ∃ q, Lexical.lexical_accuracy golden_sql generated_sql = Py.Ok q.
Proof.
  unfold Lexical.lexical_accuracy. case_decide as HA; [eauto|].
  rewrite truediv_nat_ok by (by apply gset_size_non_empty). eauto.
Qed.

Lemma graph_similarity_ok (sql1 sql2 : string) :
  ∃ q, Structural.graph_similarity sql1 sql2 = Py.Ok q.
Proof.
  unfold Structural.graph_similarity.
  destruct (decide (Structural.edges_of sql1 = ∅
                    ∧ Structural.edges_of sql2 = ∅)) as [[-> ->]|Hne].
  - rewrite graph_similarity_edges_empty. simpl. eauto.
  - rewrite graph_similarity_edges_jaccard by done. simpl. eauto.
Qed.

Lemma join_correctness_ok (sql1 sql2 : string) :
  ∃ q, Structural.join_correctness sql1 sql2 = Py.Ok q.
Proof.
  destruct (Structural.extract_joins sql1) as [|j joins1] eqn:E1.
  - unfold Structural.join_correctness. rewrite E1. eauto.
  - exists 0%Qc. apply join_correctness_zero. by rewrite E1.
Qed.

(** One pair of the lexical loop gives a record with the id of the
    pair. *)
Lemma lexical_evaluate_pair_ok (qid : Z) (gold_sql gen_sql : string) :
  ∃ r, Lexical.evaluate_pair cosine_similarity_text alpha beta gamma
         qid gold_sql gen_sql = Py.Ok r
       ∧ Lexical.r_question_id r = qid.
Proof.
  unfold Lexical.evaluate_pair.
  destruct (levenshtein_similarity_ok (Lexical.normalize_sql gold_sql)
              (Lexical.normalize_sql gen_sql)) as [l ->].
  destruct (cosine_returns (Lexical.normalize_sql gold_sql)
              (Lexical.normalize_sql gen_sql)) as [c Hc].
  destruct (lexical_accuracy_ok (Lexical.normalize_sql gold_sql)
              (Lexical.normalize_sql gen_sql)) as [a Ha].
  cbn [mbind Py.result_bind]. rewrite Hc. cbn [mbind Py.result_bind].
  rewrite Ha. cbn [mbind Py.result_bind]. eauto.
Qed.

Lemma structural_evaluate_pair_ok (qid : Z) (gold_sql gen_sql : string) :
  ∃ r, Structural.evaluate_pair tree_matching_similarity alpha' beta' gamma'
         qid gold_sql gen_sql = Py.Ok r
       ∧ Structural.r_question_id r = qid.
Proof.
  unfold Structural.evaluate_pair.
  destruct (tree_returns (Structural.normalize_sql gold_sql)
              (Structural.normalize_sql gen_sql)) as [t ->].
  destruct (graph_similarity_ok (Structural.normalize_sql gold_sql)
              (Structural.normalize_sql gen_sql)) as [g Hg].
  destruct (join_correctness_ok (Structural.normalize_sql gold_sql)
              (Structural.normalize_sql gen_sql)) as [j Hj].
  cbn [mbind Py.result_bind]. rewrite Hg. cbn [mbind Py.result_bind].
  rewrite Hj. cbn [mbind Py.result_bind]. eauto.
Qed.

(** The loops: one record for each generated entry that joins a golden
    entry, in the order of the generated entries. *)
Lemma lexical_collect_ok (gm : gmap Z string)
    (generated : list Corpus.generation) :
  ∀ results,
    ∃ more,
      Lexical.collect cosine_similarity_text alpha beta gamma
        gm generated results = Py.Ok (results ++ more)
      ∧ Lexical.r_question_id <$> more
        = Corpus.gen_question_id
            <$> filter (fun item => Corpus.joined gm item = true) generated.
Proof.
  induction generated as [|item generated IH]; intros results.
  - exists []. by rewrite app_nil_r.
  - cbn [Lexical.collect]. rewrite filter_cons.
    destruct (decide (Corpus.joined gm item = true)) as [Hj|Hj];
      unfold Corpus.joined in Hj;
      destruct (gm !! Corpus.gen_question_id item) as [sql|];
      [| done | apply not_true_is_false in Hj; rewrite Hj; apply IH | apply IH].
    rewrite Hj. cbn [negb].
    destruct (lexical_evaluate_pair_ok (Corpus.gen_question_id item) sql
                (Corpus.SQL_generated item)) as (r & -> & Hid).
    cbn [mbind Py.result_bind].
    destruct (IH (results ++ [r])) as (more & -> & Hids).
    exists (r :: more). split.
    + by rewrite <- app_assoc.
    + by rewrite !fmap_cons, Hids, Hid.
Qed.

Lemma structural_collect_ok (gm : gmap Z string)
    (generated : list Corpus.generation) :
  ∀ results,
    ∃ more,
      Structural.collect tree_matching_similarity alpha' beta' gamma'
        gm generated results = Py.Ok (results ++ more)
      ∧ Structural.r_question_id <$> more
        = Corpus.gen_question_id
            <$> filter (fun item => Corpus.joined gm item = true) generated.
Proof.
  induction generated as [|item generated IH]; intros results.
  - exists []. by rewrite app_nil_r.
  - cbn [Structural.collect]. rewrite filter_cons.
    destruct (decide (Corpus.joined gm item = true)) as [Hj|Hj];
      unfold Corpus.joined in Hj;
      destruct (gm !! Corpus.gen_question_id item) as [sql|];
      [| done | apply not_true_is_false in Hj; rewrite Hj; apply IH | apply IH].
    rewrite Hj. cbn [negb].
    destruct (structural_evaluate_pair_ok (Corpus.gen_question_id item) sql
                (Corpus.SQL_generated item)) as (r & -> & Hid).
    cbn [mbind Py.result_bind].
    destruct (IH (results ++ [r])) as (more & -> & Hids).
    exists (r :: more). split.
    + by rewrite <- app_assoc.
    + by rewrite !fmap_cons, Hids, Hid.
Qed.

Lemma joined_filter_non_empty (gm : gmap Z string)
    (generated : list Corpus.generation) :
  Exists (fun item => Corpus.joined gm item = true) generated →
  filter (fun item => Corpus.joined gm item = true) generated ≠ [].
Proof.
  intros (item & Hin & Hj)%Exists_exists Hnil.
  assert (Hf : item ∈ filter (fun item => Corpus.joined gm item = true)
                        generated) by (by apply list_elem_of_filter).
  rewrite Hnil in Hf. by apply elem_of_nil in Hf.
Qed.

Lemma fmap_length_non_zero {A B C : Type} (f : A → C) (g : B → C)
    (l : list A) (k : list B) :
  f <$> l = g <$> k → k ≠ [] → length l ≠ 0.
Proof.
  intros Heq Hk Hl. destruct l; [|done]. destruct k; [done|]. done.
Qed.



End Reports.



(** ** The normal form *)

Section NormalForm.

(** X26: Every result of either normalizer is in lower case, has no backtick and
    no semicolon, has no white space but single-character blanks, and has no
    white space at its ends. *)
Theorem normalize_sql_normal_form (s t : string) :
  t = Lexical.normalize_sql s ∨ t = Structural.normalize_sql s →
  Str.lower t = t
  ∧ Str.forallb (Char.isnt "`") t = true
  ∧ Str.forallb (Char.isnt ";") t = true
  ∧ Str.forallb Char.blank_if_space t = true
  ∧ Str.strip t = t.
Proof.
  intros [-> | ->].
  - destruct (lexical_normal_form s) as (Hlow & Hbt & Hsp & Hsemi & Hstrip).
    split_and!; try done. by apply lower_lowered.
  - destruct (structural_normal_form s) as (Hlow & Hbt & Hsp & Hsemi & Hstrip).
    split_and!; try done. by apply lower_lowered.
Qed.

Lemma normalize_sql_normal_form_witness :
  Str.lower "select a from t" = "select a from t"
  ∧ Str.forallb (Char.isnt "`") "select a from t" = true
  ∧ Str.forallb (Char.isnt ";") "select a from t" = true
  ∧ Str.forallb Char.blank_if_space "select a from t" = true
  ∧ Str.strip "select a from t" = "select a from t".
Proof.
  apply (normalize_sql_normal_form "SELECT  `a` FROM t; " "select a from t").
  left. vm_compute. reflexivity.
Defined.

End NormalForm.

(** ** What the lexical accuracy counts, and the case of the letters *)

Section Attributes.
Import Lexical.

Lemma inter_size_subseteq (A B : gset string) :
  size (A ∩ B) = size A ↔ A ⊆ B.
Proof.
  split.
  - intros H. assert (E : A ∩ B = A).
    { apply set_subseteq_size_eq; [set_solver | lia]. }
    set_solver.
  - intros H. f_equal. set_solver.
Qed.

(** X27: The lexical accuracy is 1.0 exactly when the golden query has an
    attribute and each of its attributes is among those of the generated
    query, whatever else the generated query holds; it is 0.0 exactly when
    the two queries share no attribute. *)
Theorem lexical_accuracy_full (golden_sql generated_sql : string) :
  let attrs_gold : gset string := list_to_set (extract_attributes golden_sql) in
  let attrs_gen : gset string := list_to_set (extract_attributes generated_sql) in
  (lexical_accuracy golden_sql generated_sql = Py.Ok 1%Qc
   ↔ attrs_gold ≠ ∅ ∧ attrs_gold ⊆ attrs_gen)
  ∧ (lexical_accuracy golden_sql generated_sql = Py.Ok 0%Qc
     ↔ attrs_gold ∩ attrs_gen = ∅).
Proof.
  intros A B. unfold lexical_accuracy. fold A B.
  destruct (decide (A = ∅)) as [HA|HA].
  - split.
    + split; [discriminate | by intros [? _]].
    + split; [set_solver | done].
  - pose proof (gset_size_non_empty _ HA) as Hs.
    rewrite truediv_nat_ok by done. split.
    + split.
      * intros H%Ok_inj%ratio_eq_1; [|done]. split; [done|].
        by apply inter_size_subseteq.
      * intros [_ Hsub]. apply inter_size_subseteq in Hsub.
        rewrite Hsub, Qcdiv_same; [done|]. by rewrite of_nat_eq_0.
    + split.
      * intros H%Ok_inj%ratio_eq_0; [|done].
        by apply leibniz_equiv, size_empty_inv.
      * intros ->. by rewrite size_empty, of_nat_0, Qcdiv_0_l.
Qed.

(** X28: The attributes, the join graph and the join pairs of a query are read
    from its lower case: the lexical accuracy, the graph similarity and
    the join correctness do not change with the case of the letters of
    either query. *)
Theorem metrics_ignore_case (sql1 sql1' sql2 sql2' : string) :
  Str.lower sql1 = Str.lower sql1' →
  Str.lower sql2 = Str.lower sql2' →
  lexical_accuracy sql1 sql2 = lexical_accuracy sql1' sql2'
  ∧ Structural.graph_similarity sql1 sql2
    = Structural.graph_similarity sql1' sql2'
  ∧ Structural.join_correctness sql1 sql2
    = Structural.join_correctness sql1' sql2'.
Proof.
  intros H1 H2. split_and!.
  - unfold lexical_accuracy, extract_attributes. by rewrite H1, H2.
  - unfold Structural.graph_similarity, Structural.edges_of,
      Structural.build_graph, Structural.extract_tables,
      Structural.extract_joins.
    by rewrite H1, H2.
  - unfold Structural.join_correctness, Structural.extract_joins.
    by rewrite H1, H2.
Qed.

Lemma metrics_ignore_case_witness :
  lexical_accuracy "SELECT a FROM t" "select A from T JOIN u ON t.id = u.id"
  = lexical_accuracy "select a from t" "select a from t join u on t.id = u.id"
  ∧ Structural.graph_similarity
      "SELECT a FROM t" "select A from T JOIN u ON t.id = u.id"
    = Structural.graph_similarity
        "select a from t" "select a from t join u on t.id = u.id"
  ∧ Structural.join_correctness
      "SELECT a FROM t" "select A from T JOIN u ON t.id = u.id"
    = Structural.join_correctness
        "select a from t" "select a from t join u on t.id = u.id".
Proof.
  apply (metrics_ignore_case
           "SELECT a FROM t" "select a from t"
           "select A from T JOIN u ON t.id = u.id"
           "select a from t join u on t.id = u.id"); reflexivity.
Defined.

End Attributes.
